(** * d-store: the product card and the recommended-products loader

    A shallow embedding of [app/components/ProductCard.tsx] and of the
    loader and section component of [app/routes/_index.tsx].

    - A JavaScript string is modelled as the [string] of its UTF-8 bytes,
      so that [===] on strings is [String.eqb]. [toLowerCase] is the case
      mapping of the engine: it is a variable of the development, and every
      theorem holds for any such function.
    - [null] and [undefined] are modelled as [None].
    - [Math.random] is an oracle [random : nat -> Q] indexed by the number of
      calls made so far; the call counter is threaded through the code that
      draws from it.
    - React is modelled by what it does with this component: an event runs
      its handler on the state of the latest render, the component renders
      again, and the effect of lines 143-157 is cleaned up and run again.
      The page renders the cards it holds, and a card whose render throws
      takes the page with it. *)

From Stdlib Require Import List String Ascii Bool Arith ZArith QArith Lia.
Import ListNotations.
Local Open Scope string_scope.
Local Open Scope list_scope.
Local Open Scope nat_scope.

(** ** Data model (the fragments of the GraphQL query) *)

Module MoneyV2.
Record t := mk { amount : string; currencyCode : string }.
End MoneyV2.

Module Image.
Record t := mk {
  id : option string;
  url : string;
  altText : option string;
  width : option Z;
  height : option Z }.
End Image.

Module SelectedOption.
Record t := mk { name : string; value : string }.
End SelectedOption.

Module ProductVariant.
Record t := mk {
  availableForSale : bool;
  compareAtPrice : option MoneyV2.t;
  id : string;
  image : option Image.t;
  price : MoneyV2.t;
  selectedOptions : list SelectedOption.t;
  sku : option string;
  title : string;
  unitPrice : option MoneyV2.t }.
End ProductVariant.

Definition Variant : Type := ProductVariant.t.

Module Edge.
Record t := mk { node : Variant }.
End Edge.

Module Connection.
Record t := mk { edges : list Edge.t }.
End Connection.

Module Product.
Record t := mk {
  id : string;
  title : string;
  vendor : string;
  handle : string;
  selectedOrFirstAvailableVariant : option Variant;
  variants : Connection.t }.
End Product.

(** The response of the query. *)
Module RecommendedProductsQuery.
Record products_t := mkProducts { nodes : list Product.t }.
Record t := mk { products : products_t }.
End RecommendedProductsQuery.

(** The options and swatches the card reads (lines 48-60 and 184-204). *)
Module PreviewImage.
Record t := mk { url : string }.
End PreviewImage.

Module SwatchMedia.
Record t := mk { previewImage : option PreviewImage.t }.
End SwatchMedia.

(** [ProductOptionValueSwatch]. *)
Module SwatchData.
Record t := mk { color : option string; image : option SwatchMedia.t }.
End SwatchData.

Module OptionValue.
Record t := mk { name : string; swatch : option SwatchData.t }.
End OptionValue.

(** An entry of what [getProductOptions] returns, with the fields the card
    reads. *)
Module ProductOption.
Record t := mk { name : string; optionValues : list OptionValue.t }.
End ProductOption.

(** The props of [Swatch]; [onClick] is the colour name its handler gives
    to [handleVariantClick]. *)
Module SwatchProps.
Record t := mk {
  swatch : option SwatchData.t;
  name : string;
  isSelected : bool;
  onClick : string }.
End SwatchProps.

(** ** Strings *)

Definition lower_ascii (c : ascii) : ascii :=
  let n := nat_of_ascii c in
  if (65 <=? n) && (n <=? 90) then ascii_of_nat (n + 32) else c.

(** [String.prototype.toLowerCase] on strings of ASCII characters; it stands
    for [toLowerCase] in the examples, whose strings are ASCII. *)
Fixpoint asciiToLowerCase (s : string) : string :=
  match s with
  | EmptyString => EmptyString
  | String c r => String (lower_ascii c) (asciiToLowerCase r)
  end.

(** ** [addFakeSaleOnSomeProducts] (lines 81-96) *)

Definition fakeSale : MoneyV2.t :=
  {| MoneyV2.amount := "300.0"; MoneyV2.currencyCode := "CAD" |}.

(** The object spread [{...variant, compareAtPrice: m}]. *)
Definition withCompareAtPrice (m : option MoneyV2.t) (variant : Variant) : Variant :=
  {| ProductVariant.availableForSale := ProductVariant.availableForSale variant;
     ProductVariant.compareAtPrice := m;
     ProductVariant.id := ProductVariant.id variant;
     ProductVariant.image := ProductVariant.image variant;
     ProductVariant.price := ProductVariant.price variant;
     ProductVariant.selectedOptions := ProductVariant.selectedOptions variant;
     ProductVariant.sku := ProductVariant.sku variant;
     ProductVariant.title := ProductVariant.title variant;
     ProductVariant.unitPrice := ProductVariant.unitPrice variant |}.

(** [x < y] on the numbers [Math.random] returns. *)
Definition Qltb (x y : Q) : bool := negb (Qle_bool y x).

Section Random.

(** [random n] is what the [n]-th call of [Math.random] returns. *)
Variable random : nat -> Q.

(** The callback of [variants.map], at call counter [n]. *)
Definition addFakeSale_one (n : nat) (variant : Variant) : Variant :=
  let shouldAddSale := Qltb (random n) (1 # 2) in
  if shouldAddSale then withCompareAtPrice (Some fakeSale) variant
  else variant.

(** [variants.map] calls the callback once per element, in order; the
    result comes with the call counter after the last call. *)
Fixpoint addFakeSaleOnSomeProducts (n : nat) (variants : list Variant)
  : list Variant * nat :=
  match variants with
  | [] => ([], n)
  | variant :: rest =>
      let v' := addFakeSale_one n variant in
      let (rest', n') := addFakeSaleOnSomeProducts (S n) rest in
      (v' :: rest', n')
  end.

End Random.

(** ** The state of a card (lines 102-106) *)

Record CardState := mkCardState {
  selectedVariant : Variant;
  hoverVariant : option Variant;
  isHovering : bool }.

Section Folding.

(** [String.prototype.toLowerCase], with the case mapping of the engine. *)
Variable toLowerCase : string -> string.

(** ** Handlers (lines 118-141); [variants] is the array of the render whose
    closures the handlers are. *)

Definition isColorOption (colorName : string) (opt : SelectedOption.t) : bool :=
  String.eqb (toLowerCase (SelectedOption.name opt)) "color"
  && String.eqb (toLowerCase (SelectedOption.value opt)) (toLowerCase colorName).

Definition matchesColor (colorName : string) (variant : Variant) : bool :=
  existsb (isColorOption colorName) (ProductVariant.selectedOptions variant).

Definition handleVariantClick (variants : list Variant) (colorName : string)
    (st : CardState) : CardState :=
  let matchingVariant := find (matchesColor colorName) variants in
  match matchingVariant with
  | Some v =>
      {| selectedVariant := v; hoverVariant := None; isHovering := false |}
  | None => st
  end.

Definition handleMouseEnter (st : CardState) : CardState :=
  {| selectedVariant := selectedVariant st;
     hoverVariant := hoverVariant st;
     isHovering := true |}.

Definition handleMouseLeave (st : CardState) : CardState :=
  {| selectedVariant := selectedVariant st;
     hoverVariant := None;
     isHovering := false |}.

(** ** What a render shows (lines 159-225) *)

Record PriceProps := mkPriceProps {
  actualPrice : MoneyV2.t;
  compareAtPrice : option MoneyV2.t }.

(** The [Price] component (lines 31-46). *)
Inductive PriceView :=
| MoneyOnly (actual : MoneyV2.t)
| StruckThrough (compareAt actual : MoneyV2.t).

Definition Price (props : PriceProps) : PriceView :=
  match compareAtPrice props with
  | None => MoneyOnly (actualPrice props)
  | Some c => StruckThrough c (actualPrice props)
  end.

(** [hoverVariant || selectedVariant] *)
Definition displayedVariant (st : CardState) : Variant :=
  match hoverVariant st with
  | Some h => h
  | None => selectedVariant st
  end.

Record CardView := mkCardView {
  onSaleBadge : bool;
  imageData : option Image.t;
  priceProps : PriceProps }.

Definition isSome {A} (o : option A) : bool :=
  match o with Some _ => true | None => false end.

Definition renderCard (st : CardState) : CardView :=
  {| onSaleBadge := isSome (ProductVariant.compareAtPrice (selectedVariant st));
     imageData := ProductVariant.image (displayedVariant st);
     priceProps :=
       {| actualPrice := ProductVariant.price (selectedVariant st);
          compareAtPrice := ProductVariant.compareAtPrice (selectedVariant st) |} |}.

Definition displayedImage (st : CardState) : option Image.t :=
  imageData (renderCard st).

Definition displayedPrice (st : CardState) : MoneyV2.t * option MoneyV2.t :=
  (actualPrice (priceProps (renderCard st)),
   compareAtPrice (priceProps (renderCard st))).

Definition saleBadgeShown (st : CardState) : bool :=
  onSaleBadge (renderCard st).

(** ** The hover cycle (lines 143-157) *)

(** [Array.prototype.findIndex]: the first index whose element satisfies
    [p], and [-1] when there is none. *)
Fixpoint findIndex {A} (p : A -> bool) (l : list A) : Z :=
  match l with
  | [] => (-1)%Z
  | x :: rest =>
      if p x then 0%Z
      else let i := findIndex p rest in
           if (i <? 0)%Z then (-1)%Z else (i + 1)%Z
  end.

(** [arr[i]] for an integer [i]; [undefined] outside the array. *)
Definition at_index {A} (arr : list A) (i : Z) : option A :=
  if (i <? 0)%Z then None else nth_error arr (Z.to_nat i).

(** The updater given to [setHoverVariant] by the interval callback. *)
Definition nextHoverVariant (variants : list Variant) (selected : Variant)
    (prevVariant : option Variant) : option Variant :=
  let wanted :=
    match prevVariant with
    | Some p => ProductVariant.id p
    | None => ProductVariant.id selected
    end in
  let currentIndex :=
    findIndex (fun v => String.eqb (ProductVariant.id v) wanted) variants in
  let nextVariant :=
    at_index variants (Z.rem (currentIndex + 1) (Z.of_nat (List.length variants))) in
  nextVariant.

Definition setHoverVariant (h : option Variant) (st : CardState) : CardState :=
  {| selectedVariant := selectedVariant st;
     hoverVariant := h;
     isHovering := isHovering st |}.

(** What the interval callback closes over: the [variants] and the
    [selectedVariant] of the render whose effect armed it. *)
Record Closure := mkClosure {
  cl_variants : list Variant;
  cl_selectedVariant : Variant }.

(** The intervals of the card in the browser's timer table. *)
Record Timers := mkTimers {
  active : list (nat * Closure);
  fresh : nat }.

Definition setInterval (cb : Closure) (t : Timers) : nat * Timers :=
  (fresh t, {| active := (fresh t, cb) :: active t; fresh := S (fresh t) |}).

Definition clearInterval (interval : nat) (t : Timers) : Timers :=
  {| active := filter (fun e => negb (fst e =? interval)) (active t);
     fresh := fresh t |}.

Fixpoint lookupInterval (interval : nat) (l : list (nat * Closure))
  : option Closure :=
  match l with
  | [] => None
  | (i, cb) :: rest => if i =? interval then Some cb else lookupInterval interval rest
  end.

(** The effect: its guard, the interval it arms, and the cleanup it returns
    ([Some interval] stands for [() => clearInterval(interval)]). *)
Definition hoverEffect (st : CardState) (variants : list Variant) (t : Timers)
  : option nat * Timers :=
  if negb (isHovering st) || (List.length variants <=? 1) then (None, t)
  else
    let (interval, t') :=
      setInterval {| cl_variants := variants;
                     cl_selectedVariant := selectedVariant st |} t in
    (Some interval, t').

Definition runCleanup (cleanup : option nat) (t : Timers) : Timers :=
  match cleanup with
  | Some interval => clearInterval interval t
  | None => t
  end.

(** A mounted card: the state, the [variants] array of its latest render,
    its timers, the cleanup of its latest effect and the number of
    [Math.random] calls so far. *)
Record Card := mkCard {
  state : CardState;
  variants : list Variant;
  timers : Timers;
  cleanup : option nat;
  randomCalls : nat }.

Inductive Event :=
| MouseEnter
| MouseLeave
| Click (colorName : string)
| Tick (interval : nat)
| Rerender.

Section Component.

Variable random : nat -> Q.
Variable product : Product.t.

(** Line 99. *)
Definition productVariants : list Variant :=
  map Edge.node (Connection.edges (Product.variants product)).

(** A render after the first, with state [st']: lines 99-100, then the
    effect. [variants] is a new array in every render, so the dependencies
    of the effect differ every time: the previous cleanup runs and the
    effect runs again. *)
Definition rerender (st' : CardState) (c : Card) : Card :=
  let (variants', n') :=
    addFakeSaleOnSomeProducts random (randomCalls c) productVariants in
  let (cleanup', t') :=
    hoverEffect st' variants' (runCleanup (cleanup c) (timers c)) in
  {| state := st'; variants := variants'; timers := t';
     cleanup := cleanup'; randomCalls := n' |}.

(** The first render, with [calls] earlier calls of [Math.random] and
    [firstId] the next interval id. With no variant, [variants[0]] is
    [undefined] and the render throws at [selectedVariant.compareAtPrice]:
    [None]. *)
Definition mount (calls firstId : nat) : option Card :=
  let (variants0, n') :=
    addFakeSaleOnSomeProducts random calls productVariants in
  match variants0 with
  | [] => None
  | first :: _ =>
      let st := {| selectedVariant := first;
                   hoverVariant := None;
                   isHovering := false |} in
      let (cleanup0, t) :=
        hoverEffect st variants0 {| active := []; fresh := firstId |} in
      Some {| state := st; variants := variants0; timers := t;
              cleanup := cleanup0; randomCalls := n' |}
  end.

(** An event runs its handler and the card renders again. When the
    handler calls no setter (a click that matches nothing), or sets what
    the state already holds (entering while hovering, leaving while
    neither hovering nor previewing), React does not render and the card
    stays as it is. A click that matches always renders here; were React
    to skip the render because the three values are the ones held, the
    card would stay as it is, which is a card already reached. A tick
    fires only for an interval that is still armed. *)
Definition fire (ev : Event) (c : Card) : option Card :=
  match ev with
  | MouseEnter =>
      if isHovering (state c) then Some c
      else Some (rerender (handleMouseEnter (state c)) c)
  | MouseLeave =>
      if negb (isHovering (state c)) && negb (isSome (hoverVariant (state c)))
      then Some c
      else Some (rerender (handleMouseLeave (state c)) c)
  | Click colorName =>
      match find (matchesColor colorName) (variants c) with
      | Some _ =>
          Some (rerender (handleVariantClick (variants c) colorName (state c)) c)
      | None => Some c
      end
  | Tick interval =>
      match lookupInterval interval (active (timers c)) with
      | Some cb =>
          let h := nextHoverVariant (cl_variants cb) (cl_selectedVariant cb)
                     (hoverVariant (state c)) in
          Some (rerender (setHoverVariant h (state c)) c)
      | None => None
      end
  | Rerender => Some (rerender (state c) c)
  end.

(** Unmounting runs the cleanup of the latest effect. *)
Definition unmount (c : Card) : Timers :=
  runCleanup (cleanup c) (timers c).

Inductive reachable : Card -> Prop :=
| reachable_mount calls firstId c :
    mount calls firstId = Some c -> reachable c
| reachable_fire ev c c' :
    reachable c -> fire ev c = Some c' -> reachable c'.

(** The interval of the card that is armed, if any. *)
Definition armed (c : Card) : option nat :=
  match active (timers c) with
  | (i, _) :: _ => Some i
  | [] => None
  end.

(** One tick of the armed interval. *)
Definition tick (c : Card) : option Card :=
  match armed c with
  | Some i => fire (Tick i) c
  | None => None
  end.

(** [k] ticks in a row. *)
Fixpoint ticks (k : nat) (c : Card) : option Card :=
  match k with
  | O => Some c
  | S k' =>
      match ticks k' c with
      | Some c' => tick c'
      | None => None
      end
  end.

End Component.

(** The index of a variant in a list, by [id], as the tick computes it. *)
Definition indexOf (variants : list Variant) (v : Variant) : Z :=
  findIndex (fun w => String.eqb (ProductVariant.id w) (ProductVariant.id v))
            variants.

(** ** The loader and the section (app/routes/_index.tsx) *)

Definition Error : Type := string.

Inductive Query := RECOMMENDED_PRODUCTS_QUERY.

(** A promise, as the code that observes it finds it. *)
Inductive Promise (A : Type) :=
| Pending
| Fulfilled (a : A)
| Rejected (error : Error).
Arguments Pending {A}.
Arguments Fulfilled {A} a.
Arguments Rejected {A} error.

(** What the loader can touch outside its result: the console, and the
    queries sent to the backend. *)
Record World := mkWorld {
  console : list Error;
  sent : list Query }.

Definition console_error (error : Error) (w : World) : World :=
  {| console := console w ++ [error]; sent := sent w |}.

(** [context.storefront]: [answer] is what the backend does with a query. *)
Record Storefront := mkStorefront {
  answer : Query -> Promise RecommendedProductsQuery.t }.

Definition storefront_query (sf : Storefront) (q : Query) (w : World)
  : Promise RecommendedProductsQuery.t * World :=
  (answer sf q, {| console := console w; sent := sent w ++ [q] |}).

(** [p.catch(onRejected)]: the handler runs on a rejection only, and what
    it returns fulfils the new promise. *)
Definition catch {A B} (p : Promise A) (inject : A -> B)
    (onRejected : Error -> World -> B * World) (w : World)
  : Promise B * World :=
  match p with
  | Pending => (Pending, w)
  | Fulfilled a => (Fulfilled (inject a), w)
  | Rejected error =>
      let (b, w') := onRejected error w in (Fulfilled b, w')
  end.

Record DeferredData := mkDeferredData {
  recommendedProducts : Promise (option RecommendedProductsQuery.t) }.

(** Lines 19-30. *)
Definition loadDeferredData (sf : Storefront) (w : World)
  : DeferredData * World :=
  let (p, w1) := storefront_query sf RECOMMENDED_PRODUCTS_QUERY w in
  let (recommended, w2) :=
    catch p Some (fun error w' => (None, console_error error w')) w1 in
  ({| recommendedProducts := recommended |}, w2).

(** Lines 13-17. *)
Definition loader (sf : Storefront) (w : World) : DeferredData * World :=
  loadDeferredData sf w.

(** The elements the section renders. *)
#[warnings="-register-all"]
Inductive Element :=
| Null
| Text (s : string)
| Tag (tag className : string) (children : list Element)
| ProductCardElement (key : string) (product : Product.t).

(** A render either shows an element or throws to the error boundary. *)
Inductive Rendered :=
| Shown (e : Element)
| Thrown (error : Error).

(** [<Suspense fallback><Await resolve>{children}</Await></Suspense>]; no
    [errorElement] is given, so a rejected promise is thrown. *)
Definition SuspenseAwait {A} (fallback : Element) (resolve : Promise A)
    (children : A -> Element) : Rendered :=
  match resolve with
  | Pending => Shown fallback
  | Fulfilled a => Shown (children a)
  | Rejected error => Thrown error
  end.

(** Lines 51-63. *)
Definition renderResponse (response : option RecommendedProductsQuery.t)
  : Element :=
  match response with
  | None => Null
  | Some r =>
      Tag "div" "recommended-products-grid"
        (map (fun product => ProductCardElement (Product.id product) product)
             (RecommendedProductsQuery.nodes
                (RecommendedProductsQuery.products r)))
  end.

Definition loadingPlaceholder : Element := Tag "div" "" [Text "Loading..."].

(** Lines 49-65: what stands under the heading. *)
Definition underHeading (products : Promise (option RecommendedProductsQuery.t))
  : Rendered :=
  SuspenseAwait loadingPlaceholder products renderResponse.

(** Lines 41-69. *)
Definition RecommendedProducts
    (products : Promise (option RecommendedProductsQuery.t)) : Rendered :=
  match underHeading products with
  | Shown inner =>
      Shown (Tag "div" "recommended-products"
               [Tag "h2" "" [Text "Recommended Products"];
                inner;
                Tag "br" "" []])
  | Thrown error => Thrown error
  end.

(** The products whose cards an element holds, in order. *)
Fixpoint cardProducts (e : Element) : list Product.t :=
  match e with
  | Null => []
  | Text _ => []
  | Tag _ _ children => flat_map cardProducts children
  | ProductCardElement _ product => [product]
  end.

(** The first render of each card of a list, one after the other, each
    drawing from [Math.random] after the one before; [None] when the render
    of a card throws. *)
Fixpoint mountCards (random : nat -> Q) (calls firstId : nat)
    (products : list Product.t) : option (list Card) :=
  match products with
  | [] => Some []
  | product :: rest =>
      match mount random product calls firstId with
      | None => None
      | Some c =>
          match mountCards random (randomCalls c) firstId rest with
          | None => None
          | Some cs => Some (c :: cs)
          end
      end
  end.

(** What the render of a card throws when [selectedVariant] is undefined. *)
Definition undefinedSelectedVariant : Error :=
  "TypeError: Cannot read properties of undefined (reading 'compareAtPrice')".

(** React renders the cards an element holds; an error thrown by one of
    them reaches the error boundary in place of the element. *)
Definition commit (random : nat -> Q) (calls firstId : nat) (e : Element)
  : Rendered :=
  match mountCards random calls firstId (cardProducts e) with
  | Some _ => Shown e
  | None => Thrown undefinedSelectedVariant
  end.

(** Lines 32-39 after the loader: the page for a backend and a world, with
    its cards rendered. *)
Definition Homepage (random : nat -> Q) (calls firstId : nat)
    (sf : Storefront) (w : World) : Rendered * World :=
  let (data, w') := loader sf w in
  match RecommendedProducts (recommendedProducts data) with
  | Shown section =>
      (commit random calls firstId (Tag "div" "home" [section]), w')
  | Thrown error => (Thrown error, w')
  end.

(** ** Fixtures: the scenario of the specification *)

Definition cad (amount : string) : MoneyV2.t :=
  {| MoneyV2.amount := amount; MoneyV2.currencyCode := "CAD" |}.

Definition picture (url : string) : Image.t :=
  {| Image.id := None; Image.url := url; Image.altText := None;
     Image.width := None; Image.height := None |}.

Definition red : Variant :=
  {| ProductVariant.availableForSale := false;
     ProductVariant.compareAtPrice := None;
     ProductVariant.id := "1";
     ProductVariant.image := Some (picture "red.png");
     ProductVariant.price := cad "10";
     ProductVariant.selectedOptions :=
       [{| SelectedOption.name := "Color"; SelectedOption.value := "Red" |}];
     ProductVariant.sku := None;
     ProductVariant.title := "Red";
     ProductVariant.unitPrice := None |}.

Definition blue : Variant :=
  {| ProductVariant.availableForSale := true;
     ProductVariant.compareAtPrice := Some (cad "8");
     ProductVariant.id := "2";
     ProductVariant.image := Some (picture "blue.png");
     ProductVariant.price := cad "12";
     ProductVariant.selectedOptions :=
       [{| SelectedOption.name := "Color"; SelectedOption.value := "Blue" |}];
     ProductVariant.sku := None;
     ProductVariant.title := "Blue";
     ProductVariant.unitPrice := None |}.

Definition connectionOf (vs : list Variant) : Connection.t :=
  {| Connection.edges := map Edge.mk vs |}.

(** The first variant is sold out, so the backend designates the second. *)
Definition shirt : Product.t :=
  {| Product.id := "p1"; Product.title := "Shirt"; Product.vendor := "d-store";
     Product.handle := "shirt";
     Product.selectedOrFirstAvailableVariant := Some blue;
     Product.variants := connectionOf [red; blue] |}.

Definition sock : Product.t :=
  {| Product.id := "p2"; Product.title := "Sock"; Product.vendor := "d-store";
     Product.handle := "sock";
     Product.selectedOrFirstAvailableVariant := Some blue;
     Product.variants := connectionOf [blue] |}.

(** Oracles for [Math.random]. *)
Definition neverSale : nat -> Q := fun _ => 3 # 4.
Definition alwaysSale : nat -> Q := fun _ => 1 # 4.

Definition hoveringBlueOverRed : CardState :=
  {| selectedVariant := red; hoverVariant := Some blue; isHovering := true |}.

Definition emptyWorld : World := {| console := []; sent := [] |}.

Definition failingStorefront : Storefront :=
  {| answer := fun _ => Rejected "network down" |}.

(** The shirt's card once mounted, and once the pointer is over it, when
    [Math.random] never draws a sale. *)
Definition shirtCard : Card :=
  {| state := {| selectedVariant := red; hoverVariant := None;
                 isHovering := false |};
     variants := [red; blue];
     timers := {| active := []; fresh := 0 |};
     cleanup := None;
     randomCalls := 2 |}.

Definition hoveredShirtCard : Card :=
  {| state := {| selectedVariant := red; hoverVariant := None;
                 isHovering := true |};
     variants := [red; blue];
     timers := {| active := [(0, {| cl_variants := [red; blue];
                                    cl_selectedVariant := red |})];
                  fresh := 1 |};
     cleanup := Some 0;
     randomCalls := 4 |}.

(** A product two of whose variants carry the same id, and its card once
    the pointer is over it. *)
Definition navy : Variant :=
  {| ProductVariant.availableForSale := true;
     ProductVariant.compareAtPrice := None;
     ProductVariant.id := "2";
     ProductVariant.image := Some (picture "navy.png");
     ProductVariant.price := cad "12";
     ProductVariant.selectedOptions :=
       [{| SelectedOption.name := "Color"; SelectedOption.value := "Navy" |}];
     ProductVariant.sku := None;
     ProductVariant.title := "Navy";
     ProductVariant.unitPrice := None |}.

Definition twins : Product.t :=
  {| Product.id := "p3"; Product.title := "Twins"; Product.vendor := "d-store";
     Product.handle := "twins";
     Product.selectedOrFirstAvailableVariant := Some red;
     Product.variants := connectionOf [red; blue; navy] |}.

Definition hoveredTwinsCard : Card :=
  {| state := {| selectedVariant := red; hoverVariant := None;
                 isHovering := true |};
     variants := [red; blue; navy];
     timers := {| active := [(0, {| cl_variants := [red; blue; navy];
                                    cl_selectedVariant := red |})];
                  fresh := 1 |};
     cleanup := Some 0;
     randomCalls := 6 |}.

(** ** Predicates used in the statements *)

(** The selected options of [v] contain an option named "color", whatever
    the case, whose value is [colorName], whatever the case. *)
Definition hasColor (colorName : string) (v : Variant) : Prop :=
  exists opt,
    In opt (ProductVariant.selectedOptions v)
    /\ toLowerCase (SelectedOption.name opt) = "color"
    /\ toLowerCase (SelectedOption.value opt) = toLowerCase colorName.

(** [v'] has every field of [v] other than [compareAtPrice]. *)
Definition sameOtherFields (v v' : Variant) : Prop :=
  ProductVariant.id v' = ProductVariant.id v
  /\ ProductVariant.title v' = ProductVariant.title v
  /\ ProductVariant.price v' = ProductVariant.price v
  /\ ProductVariant.selectedOptions v' = ProductVariant.selectedOptions v
  /\ ProductVariant.image v' = ProductVariant.image v
  /\ ProductVariant.sku v' = ProductVariant.sku v
  /\ ProductVariant.availableForSale v' = ProductVariant.availableForSale v
  /\ ProductVariant.unitPrice v' = ProductVariant.unitPrice v.

(** [v'] is [v], as it is or with the fake sale attached. *)
Definition fakeSaleOf (v v' : Variant) : Prop :=
  v' = v \/ v' = withCompareAtPrice (Some fakeSale) v.

(** ** The invariant of a mounted card *)

Section Invariant.

Variable product : Product.t.

(** [v] is the variant at index [i] of the product, with the fake sale or
    without. *)
Definition variantAt (i : nat) (v : Variant) : Prop :=
  exists b, nth_error (productVariants product) i = Some b /\ fakeSaleOf b v.

Definition fromProduct (v : Variant) : Prop := exists i, variantAt i v.

(** While the card is hovered and has two variants or more, exactly one
    interval is armed, over the values of the latest render, and the
    cleanup of the effect clears it; otherwise none is. *)
Definition timerInv (c : Card) : Prop :=
  if isHovering (state c) && (1 <? List.length (variants c)) then
    exists i,
      active (timers c) =
        [(i, {| cl_variants := variants c;
                cl_selectedVariant := selectedVariant (state c) |})]
      /\ cleanup c = Some i
      /\ i < fresh (timers c)
  else active (timers c) = [] /\ cleanup c = None.

Record Inv (c : Card) : Prop := mkInv {
  inv_variants : Forall2 fakeSaleOf (productVariants product) (variants c);
  inv_selected : fromProduct (selectedVariant (state c));
  inv_hover : forall h, hoverVariant (state c) = Some h -> fromProduct h;
  inv_timer : timerInv c }.

End Invariant.

(** The product with another backend-designated variant. *)
Definition withDesignated (designated : option Variant) (product : Product.t)
  : Product.t :=
  {| Product.id := Product.id product;
     Product.title := Product.title product;
     Product.vendor := Product.vendor product;
     Product.handle := Product.handle product;
     Product.selectedOrFirstAvailableVariant := designated;
     Product.variants := Product.variants product |}.

(** ** Swatches (lines 48-79 and 182-205) *)

Record ImgElement := mkImgElement { src : string; alt : string }.

Record ButtonElement := mkButtonElement {
  ariaLabel : string;
  className : string;
  backgroundColor : string;
  buttonOnClick : string;
  img : option ImgElement }.

(** A string or [undefined] taken as a condition: the empty string is falsy. *)
Definition truthyString (s : option string) : bool :=
  match s with
  | Some (String _ _) => true
  | _ => false
  end.

(** [swatch?.image?.previewImage?.url] *)
Definition swatchImageUrl (swatch : option SwatchData.t) : option string :=
  match swatch with
  | Some sw =>
      match SwatchData.image sw with
      | Some media =>
          match SwatchMedia.previewImage media with
          | Some preview => Some (PreviewImage.url preview)
          | None => None
          end
      | None => None
      end
  | None => None
  end.

(** [swatch?.color] *)
Definition swatchColor (swatch : option SwatchData.t) : option string :=
  match swatch with
  | Some sw => SwatchData.color sw
  | None => None
  end.

Definition selectedClass : string := "border-[#0A4874] outline-2".

(** The [Swatch] component (lines 48-79). *)
Definition Swatch (props : SwatchProps.t) : ButtonElement :=
  let image := swatchImageUrl (SwatchProps.swatch props) in
  let color := swatchColor (SwatchProps.swatch props) in
  {| ariaLabel := SwatchProps.name props;
     className :=
       String.append "w-6 h-6 rounded-full "
         (if SwatchProps.isSelected props then selectedClass else "");
     backgroundColor :=
       match color with
       | Some (String a rest) => String a rest
       | _ => "transparent"
       end;
     buttonOnClick := SwatchProps.onClick props;
     img :=
       match image with
       | Some (String a rest) =>
           Some {| src := String a rest; alt := SwatchProps.name props |}
       | _ => None
       end |}.

Definition isColorNamed (option : ProductOption.t) : bool :=
  String.eqb (toLowerCase (ProductOption.name option)) "color".

(** Lines 184-204: [null] for an option that is not named color, and one
    [Swatch] per value of one that is. The test of lines 188-192 is the
    test of lines 120-124 on [value.name]. *)
Definition renderSwatches (productOptions : list ProductOption.t)
    (st : CardState) : list (option (list ButtonElement)) :=
  map (fun option =>
         if negb (isColorNamed option) then None
         else
           Some (map (fun value =>
                        let isSelected :=
                          existsb (isColorOption (OptionValue.name value))
                            (ProductVariant.selectedOptions (selectedVariant st)) in
                        Swatch {| SwatchProps.swatch := OptionValue.swatch value;
                                  SwatchProps.name := OptionValue.name value;
                                  SwatchProps.isSelected := isSelected;
                                  SwatchProps.onClick := OptionValue.name value |})
                     (ProductOption.optionValues option)))
      productOptions.

(** The buttons React shows for it: [null] shows nothing and the arrays
    are laid out one after the other. *)
Definition shownSwatches (children : list (option (list ButtonElement)))
  : list ButtonElement :=
  flat_map (fun child => match child with Some l => l | None => [] end) children.

(** Fixtures: the options of the shirt. *)
Definition shirtOptions : list ProductOption.t :=
  [ {| ProductOption.name := "Color";
       ProductOption.optionValues :=
         [ {| OptionValue.name := "Red";
              OptionValue.swatch :=
                Some {| SwatchData.color := Some "#ff0000";
                        SwatchData.image := None |} |};
           {| OptionValue.name := "Blue";
              OptionValue.swatch :=
                Some {| SwatchData.color := None;
                        SwatchData.image :=
                          Some {| SwatchMedia.previewImage :=
                                    Some {| PreviewImage.url := "blue-swatch.png" |} |} |} |} ] |};
    {| ProductOption.name := "Size";
       ProductOption.optionValues :=
         [ {| OptionValue.name := "M"; OptionValue.swatch := None |} ] |} ].

(** [toLowerCase] on strings of ASCII and Latin-1 letters in UTF-8: the
    capitals from U+00C0 to U+00DE, the multiplication sign apart, are the
    bytes 195 and 128 to 158, and their small letters follow 32 later. *)
Fixpoint latin1ToLowerCase (s : string) : string :=
  match s with
  | EmptyString => EmptyString
  | String c1 t =>
      match t with
      | String c2 r =>
          let n := nat_of_ascii c2 in
          if (nat_of_ascii c1 =? 195) && (128 <=? n) && (n <=? 158)
             && negb (n =? 151)
          then String c1 (String (ascii_of_nat (n + 32)) (latin1ToLowerCase r))
          else String (lower_ascii c1) (latin1ToLowerCase t)
      | EmptyString => String (lower_ascii c1) EmptyString
      end
  end.

Definition coloured (id colour : string) : Variant :=
  {| ProductVariant.availableForSale := true;
     ProductVariant.compareAtPrice := None;
     ProductVariant.id := id;
     ProductVariant.image := None;
     ProductVariant.price := cad "10";
     ProductVariant.selectedOptions :=
       [{| SelectedOption.name := "Color"; SelectedOption.value := colour |}];
     ProductVariant.sku := None;
     ProductVariant.title := colour;
     ProductVariant.unitPrice := None |}.

(** An oracle that draws the sale on its first four calls only. *)
Definition saleOnFirstFour : nat -> Q :=
  fun n => if n <? 4 then 1 # 4 else 3 # 4.

(** A response with no product, a backend that gives it, and a product
    without variant. *)
Definition emptyResponse : RecommendedProductsQuery.t :=
  {| RecommendedProductsQuery.products :=
       {| RecommendedProductsQuery.nodes := [] |} |}.

Definition emptyStorefront : Storefront :=
  {| answer := fun _ => Fulfilled emptyResponse |}.

Definition bare : Product.t :=
  {| Product.id := "p4"; Product.title := "Bare"; Product.vendor := "d-store";
     Product.handle := "bare";
     Product.selectedOrFirstAvailableVariant := None;
     Product.variants := connectionOf [] |}.

(** An oracle that draws the sale on even calls only. *)
Definition saleOnEven : nat -> Q :=
  fun n => if Nat.even n then 1 # 4 else 3 # 4.

(** The hovered shirt's card after one tick, and the idle one after a click
    on Blue, when [Math.random] never draws a sale. *)
Definition tickedShirtCard : Card :=
  {| state := {| selectedVariant := red; hoverVariant := Some blue;
                 isHovering := true |};
     variants := [red; blue];
     timers := {| active := [(1, {| cl_variants := [red; blue];
                                    cl_selectedVariant := red |})];
                  fresh := 2 |};
     cleanup := Some 1;
     randomCalls := 6 |}.

Definition blueShirtCard : Card :=
  {| state := {| selectedVariant := blue; hoverVariant := None;
                 isHovering := false |};
     variants := [red; blue];
     timers := {| active := []; fresh := 0 |};
     cleanup := None;
     randomCalls := 4 |}.

(** A card that is not hovered previews nothing. *)
Definition atRest (c : Card) : Prop :=
  isHovering (state c) = false -> hoverVariant (state c) = None.

(** * Properties *)

(** ** Helper lemmas *)

Lemma matchesColor_hasColor colorName v :
  matchesColor colorName v = true <-> hasColor colorName v.
Proof.
  unfold matchesColor, hasColor. rewrite existsb_exists.
  split; intros [opt [Hin H]]; exists opt; split; auto.
  - unfold isColorOption in H. apply andb_true_iff in H as [H1 H2].
    apply String.eqb_eq in H1, H2. auto.
  - destruct H as [H1 H2]. unfold isColorOption.
    rewrite H1, H2, !String.eqb_refl. reflexivity.
Qed.

Lemma matchesColor_false colorName v :
  matchesColor colorName v = false <-> ~ hasColor colorName v.
Proof.
  rewrite <- matchesColor_hasColor.
  destruct (matchesColor colorName v); split; intro H; congruence.
Qed.

(** [find] returns the first element that satisfies the test. *)
Lemma find_first {A} (p : A -> bool) (l : list A) (x : A) :
  find p l = Some x ->
  exists before after,
    l = before ++ x :: after /\ p x = true
    /\ forall y, In y before -> p y = false.
Proof.
  induction l as [|a l IH]; simpl; [discriminate|].
  destruct (p a) eqn:Ha.
  - intros [= ->]. exists [], l. repeat split; auto. intros y [].
  - intros H. destruct (IH H) as (before & after & -> & Hx & Hb).
    exists (a :: before), after. repeat split; auto.
    intros y [<-|Hy]; auto.
Qed.

Lemma find_none_iff {A} (p : A -> bool) (l : list A) :
  find p l = None <-> forall y, In y l -> p y = false.
Proof.
  split.
  - apply find_none.
  - induction l as [|a l IH]; simpl; auto.
    intros H. rewrite (H a (or_introl eq_refl)). apply IH.
    intros y Hy. apply H. now right.
Qed.

Lemma withCompareAtPrice_sameOtherFields m v :
  sameOtherFields v (withCompareAtPrice m v).
Proof. repeat split. Qed.

Lemma fakeSaleOf_sameOtherFields v v' :
  fakeSaleOf v v' -> sameOtherFields v v'.
Proof.
  intros [->| ->]; [repeat split | apply withCompareAtPrice_sameOtherFields].
Qed.

Lemma fakeSaleOf_id v v' :
  fakeSaleOf v v' -> ProductVariant.id v' = ProductVariant.id v.
Proof. intros H. apply fakeSaleOf_sameOtherFields in H. apply H. Qed.

Lemma addFakeSale_one_fakeSaleOf random n v :
  fakeSaleOf v (addFakeSale_one random n v).
Proof.
  unfold addFakeSale_one, fakeSaleOf.
  destruct (Qltb (random n) (1 # 2)); auto.
Qed.

Lemma addFakeSale_Forall2 random vs :
  forall n, Forall2 fakeSaleOf vs (fst (addFakeSaleOnSomeProducts random n vs)).
Proof.
  induction vs as [|v vs IH]; intros n; simpl; [constructor|].
  specialize (IH (S n)).
  destruct (addFakeSaleOnSomeProducts random (S n) vs) as [rest n'].
  simpl in *. constructor; auto using addFakeSale_one_fakeSaleOf.
Qed.

Lemma addFakeSale_length random vs n :
  List.length (fst (addFakeSaleOnSomeProducts random n vs)) = List.length vs.
Proof.
  symmetry. eapply Forall2_length, addFakeSale_Forall2.
Qed.

(** One call of [Math.random] per variant. *)
Lemma addFakeSale_calls random vs :
  forall n, snd (addFakeSaleOnSomeProducts random n vs) = n + List.length vs.
Proof.
  induction vs as [|v vs IH]; intros n; simpl; [lia|].
  specialize (IH (S n)).
  destruct (addFakeSaleOnSomeProducts random (S n) vs) as [rest n'].
  simpl in *. lia.
Qed.

(** ** Display resolution *)

(** C1, as the code has it: the image shown is that of [hoverVariant] when
    there is one and of [selectedVariant] otherwise, while the price and the
    compare-at price handed to [Price] are always those of
    [selectedVariant], hovering or not. *)
Theorem display_resolution (st : CardState) :
  displayedImage st =
    ProductVariant.image
      (match hoverVariant st with Some h => h | None => selectedVariant st end)
  /\ displayedPrice st =
       (ProductVariant.price (selectedVariant st),
        ProductVariant.compareAtPrice (selectedVariant st)).
Proof.
  split; reflexivity.
Qed.

(** C1 as stated fails: while the blue variant is previewed over the
    selected red one, the image is the blue one but the price shown is
    still the red variant's, not the blue variant's. *)
Lemma displayed_price_ignores_hover :
  hoverVariant hoveringBlueOverRed = Some blue
  /\ displayedImage hoveringBlueOverRed = ProductVariant.image blue
  /\ displayedPrice hoveringBlueOverRed = (cad "10", None)
  /\ displayedPrice hoveringBlueOverRed <>
       (ProductVariant.price
          (match hoverVariant hoveringBlueOverRed with
           | Some h => h
           | None => selectedVariant hoveringBlueOverRed
           end),
        ProductVariant.compareAtPrice
          (match hoverVariant hoveringBlueOverRed with
           | Some h => h
           | None => selectedVariant hoveringBlueOverRed
           end)).
Proof.
  repeat split; try reflexivity.
  vm_compute. discriminate.
Qed.

(** C5: the sale badge depends on [selectedVariant] alone. Two states with
    the same selected variant, whatever they hover over, show the badge
    alike, and it is shown exactly when the selected variant has a
    compare-at price. *)
Theorem sale_badge_pinned_to_selection
    (selected : Variant) (hover1 hover2 : option Variant) (h1 h2 : bool) :
  let st1 := {| selectedVariant := selected; hoverVariant := hover1;
                isHovering := h1 |} in
  let st2 := {| selectedVariant := selected; hoverVariant := hover2;
                isHovering := h2 |} in
  saleBadgeShown st1 = saleBadgeShown st2
  /\ (saleBadgeShown st1 = true <->
      exists m, ProductVariant.compareAtPrice selected = Some m).
Proof.
  simpl. split; [reflexivity|].
  unfold saleBadgeShown, renderCard; simpl.
  destruct (ProductVariant.compareAtPrice selected) as [m|]; simpl; split.
  - eauto.
  - reflexivity.
  - discriminate.
  - intros [m H]. discriminate.
Qed.

(** ** Variant selector *)

(** C3: when some variant has the colour, the click selects the first such
    variant of the list, clears the preview and ends the hover. *)
Theorem select_first_matching
    (variants : list Variant) (colorName : string) (st : CardState) :
  (exists v, In v variants /\ hasColor colorName v) ->
  exists before v after,
    variants = before ++ v :: after
    /\ hasColor colorName v
    /\ (forall u, In u before -> ~ hasColor colorName u)
    /\ selectedVariant (handleVariantClick variants colorName st) = v
    /\ hoverVariant (handleVariantClick variants colorName st) = None
    /\ isHovering (handleVariantClick variants colorName st) = false.
Proof.
  intros (w & Hin & Hw). unfold handleVariantClick.
  destruct (find (matchesColor colorName) variants) as [v|] eqn:Hf.
  - destruct (find_first _ _ _ Hf) as (before & after & Heq & Hv & Hb).
    exists before, v, after. repeat split; auto.
    + now apply matchesColor_hasColor.
    + intros u Hu. apply matchesColor_false. auto.
  - exfalso. apply matchesColor_hasColor in Hw.
    rewrite (find_none _ _ Hf w Hin) in Hw. discriminate.
Qed.

(** C4: a colour that no variant has changes nothing. The handler returns
    the state it was given, no setter is called, so the card does not even
    render again, and a second click with the same name leaves the same
    card. The click always returns: there is no failure to report. *)
Theorem unmatched_click_is_noop
    (random : nat -> Q) (product : Product.t) (c : Card) (colorName : string) :
  (forall v, In v (variants c) -> ~ hasColor colorName v) ->
  handleVariantClick (variants c) colorName (state c) = state c
  /\ fire random product (Click colorName) c = Some c
  /\ handleVariantClick (variants c) colorName
       (handleVariantClick (variants c) colorName (state c)) = state c.
Proof.
  intros H.
  assert (Hf : find (matchesColor colorName) (variants c) = None).
  { apply find_none_iff. intros v Hv. apply matchesColor_false. auto. }
  unfold handleVariantClick; simpl. rewrite !Hf. auto.
Qed.

(** C6: leaving the image ends the hover, clears the preview and keeps the
    selection, so the image shown is that of the selected variant; the
    pointer-leave event of a mounted card leaves it in that state. *)
Theorem pointer_leave_reverts
    (random : nat -> Q) (product : Product.t) (c : Card) :
  let st := state c in
  isHovering (handleMouseLeave st) = false
  /\ hoverVariant (handleMouseLeave st) = None
  /\ selectedVariant (handleMouseLeave st) = selectedVariant st
  /\ displayedImage (handleMouseLeave st) =
       ProductVariant.image (selectedVariant st)
  /\ exists c', fire random product MouseLeave c = Some c'
                /\ state c' = handleMouseLeave st.
Proof.
  simpl. repeat split.
  destruct (negb (isHovering (state c)) && negb (isSome (hoverVariant (state c))))
    eqn:E.
  - exists c. split; auto.
    apply andb_true_iff in E as [E1 E2].
    destruct (state c) as [s [h|] [|]]; simpl in *; try discriminate.
    reflexivity.
  - eexists. split; [reflexivity|].
    unfold rerender.
    destruct (addFakeSaleOnSomeProducts _ _ _) as [vs n'].
    destruct (hoverEffect _ _ _) as [cl t']. reflexivity.
Qed.

(** C10: [addFakeSaleOnSomeProducts] returns as many variants, in the same
    order; each keeps every field other than [compareAtPrice], and its
    [compareAtPrice] is the one it had or 300.0 CAD. *)
Theorem addFakeSale_frame
    (random : nat -> Q) (n : nat) (variants : list Variant) :
  let out := fst (addFakeSaleOnSomeProducts random n variants) in
  List.length out = List.length variants
  /\ Forall2
       (fun v v' =>
          sameOtherFields v v'
          /\ (ProductVariant.compareAtPrice v' = ProductVariant.compareAtPrice v
              \/ ProductVariant.compareAtPrice v' =
                   Some {| MoneyV2.amount := "300.0";
                           MoneyV2.currencyCode := "CAD" |}))
       variants out.
Proof.
  simpl. split; [apply addFakeSale_length|].
  eapply Forall2_impl; [|apply addFakeSale_Forall2].
  intros v v' H. split; [now apply fakeSaleOf_sameOtherFields|].
  destruct H as [->| ->]; auto.
Qed.

(** ** The invariant holds in every reachable card *)

Lemma Forall2_nth_error_r {A B} (R : A -> B -> Prop) (l : list A) (l' : list B) :
  Forall2 R l l' ->
  forall i y, nth_error l' i = Some y ->
  exists x, nth_error l i = Some x /\ R x y.
Proof.
  induction 1 as [|x y l l' Hxy _ IH]; intros [|i] z; simpl; try discriminate.
  - intros [= <-]. eauto.
  - apply IH.
Qed.

Lemma Forall2_nth_error_l {A B} (R : A -> B -> Prop) (l : list A) (l' : list B) :
  Forall2 R l l' ->
  forall i x, nth_error l i = Some x ->
  exists y, nth_error l' i = Some y /\ R x y.
Proof.
  induction 1 as [|x y l l' Hxy _ IH]; intros [|i] z; simpl; try discriminate.
  - intros [= <-]. eauto.
  - apply IH.
Qed.

Lemma addFakeSale_result random base n vs n' :
  addFakeSaleOnSomeProducts random n base = (vs, n') ->
  Forall2 fakeSaleOf base vs.
Proof.
  intros E. pose proof (addFakeSale_Forall2 random base n) as H.
  rewrite E in H. exact H.
Qed.

Section InvariantProofs.

Variable random : nat -> Q.
Variable product : Product.t.

Let base := productVariants product.

Lemma nth_fromProduct vs i v :
  Forall2 fakeSaleOf base vs -> nth_error vs i = Some v ->
  variantAt product i v.
Proof.
  intros HF Hn. destruct (Forall2_nth_error_r _ _ _ HF i v Hn) as (b & Hb & Hr).
  exists b. auto.
Qed.

Lemma in_fromProduct vs v :
  Forall2 fakeSaleOf base vs -> In v vs -> fromProduct product v.
Proof.
  intros HF Hin. apply In_nth_error in Hin as [i Hi].
  exists i. eapply nth_fromProduct; eauto.
Qed.

Lemma runCleanup_clears c :
  timerInv c ->
  active (runCleanup (cleanup c) (timers c)) = []
  /\ fresh (runCleanup (cleanup c) (timers c)) = fresh (timers c).
Proof.
  unfold timerInv.
  destruct (isHovering (state c) && (1 <? List.length (variants c))).
  - intros (i & Ha & Hc & _). rewrite Hc. simpl. rewrite Ha. simpl.
    rewrite Nat.eqb_refl. auto.
  - intros [Ha Hc]. rewrite Hc. simpl. auto.
Qed.

Lemma hoverEffect_timerInv st vs t n :
  active t = [] ->
  timerInv {| state := st; variants := vs;
              timers := snd (hoverEffect st vs t);
              cleanup := fst (hoverEffect st vs t);
              randomCalls := n |}.
Proof.
  intros Ht. unfold timerInv, hoverEffect. simpl.
  destruct (isHovering st); simpl.
  - destruct (List.length vs) as [|[|m]] eqn:El; simpl; auto.
    exists (fresh t). rewrite Ht. auto.
  - auto.
Qed.

Lemma rerender_eq st' c :
  rerender random product st' c =
    let vs := fst (addFakeSaleOnSomeProducts random (randomCalls c) base) in
    let t := runCleanup (cleanup c) (timers c) in
    {| state := st'; variants := vs;
       timers := snd (hoverEffect st' vs t);
       cleanup := fst (hoverEffect st' vs t);
       randomCalls := randomCalls c + List.length base |}.
Proof.
  unfold rerender. fold base.
  pose proof (addFakeSale_calls random base (randomCalls c)) as Hn.
  destruct (addFakeSaleOnSomeProducts random (randomCalls c) base) as [vs n'].
  simpl in *. subst n'.
  destruct (hoverEffect st' vs _) as [cl t']. reflexivity.
Qed.

Lemma rerender_Inv st' c :
  timerInv c ->
  fromProduct product (selectedVariant st') ->
  (forall h, hoverVariant st' = Some h -> fromProduct product h) ->
  Inv product (rerender random product st' c).
Proof.
  intros Ht Hs Hh. rewrite rerender_eq. simpl.
  constructor; simpl; auto.
  - apply addFakeSale_Forall2.
  - apply hoverEffect_timerInv. apply (runCleanup_clears c Ht).
Qed.

Lemma mount_Inv calls firstId c :
  mount random product calls firstId = Some c -> Inv product c.
Proof.
  unfold mount. fold base.
  destruct (addFakeSaleOnSomeProducts random calls base) as [vs n'] eqn:E.
  apply addFakeSale_result in E.
  destruct vs as [|first rest]; [discriminate|].
  destruct (hoverEffect _ _ _) as [cl t] eqn:Eh.
  intros [= <-]. constructor; simpl; auto.
  - exists 0. eapply nth_fromProduct; eauto.
  - discriminate.
  - unfold hoverEffect in Eh. simpl in Eh. injection Eh as <- <-.
    unfold timerInv. simpl. auto.
Qed.

(** The interval a tick can fire for is the one armed by the latest
    render, over that render's values. *)
Lemma armed_closure c interval cb :
  timerInv c ->
  lookupInterval interval (active (timers c)) = Some cb ->
  isHovering (state c) = true
  /\ 1 < List.length (variants c)
  /\ cb = {| cl_variants := variants c;
             cl_selectedVariant := selectedVariant (state c) |}.
Proof.
  unfold timerInv.
  destruct (isHovering (state c) && (1 <? List.length (variants c))) eqn:E.
  - intros (i & Ha & _) Hl. rewrite Ha in Hl. simpl in Hl.
    destruct (i =? interval); [|discriminate].
    apply andb_true_iff in E as [E1 E2]. apply Nat.ltb_lt in E2.
    injection Hl as <-. auto.
  - intros [Ha _] Hl. rewrite Ha in Hl. discriminate.
Qed.

Lemma at_index_nth_error {A} (l : list A) z x :
  at_index l z = Some x -> nth_error l (Z.to_nat z) = Some x.
Proof.
  unfold at_index. destruct (z <? 0)%Z; [discriminate|auto].
Qed.

Lemma fire_Inv ev c c' :
  Inv product c -> fire random product ev c = Some c' -> Inv product c'.
Proof.
  intros [HF Hs Hh Ht]. destruct ev; simpl.
  - destruct (isHovering (state c)).
    + intros [= <-]. now constructor.
    + intros [= <-]. apply rerender_Inv; auto.
  - destruct (negb (isHovering (state c)) && negb (isSome (hoverVariant (state c)))).
    + intros [= <-]. now constructor.
    + intros [= <-]. apply rerender_Inv; simpl; auto. discriminate.
  - destruct (find (matchesColor colorName) (variants c)) as [v|] eqn:Hf.
    + intros [= <-]. unfold handleVariantClick. rewrite Hf.
      apply rerender_Inv; simpl; auto; [|discriminate].
      apply find_some in Hf as [Hin _]. eapply in_fromProduct; eauto.
    + intros [= <-]. now constructor.
  - destruct (lookupInterval interval (active (timers c))) as [cb|] eqn:Hl;
      [|discriminate].
    intros [= <-].
    destruct (armed_closure _ _ _ Ht Hl) as (_ & _ & ->). simpl.
    apply rerender_Inv; simpl; auto.
    intros h Hn. unfold nextHoverVariant in Hn.
    apply at_index_nth_error in Hn.
    eexists. eapply nth_fromProduct; eauto.
  - intros [= <-]. apply rerender_Inv; auto.
Qed.

Lemma reachable_Inv c : reachable random product c -> Inv product c.
Proof.
  induction 1; eauto using mount_Inv, fire_Inv.
Qed.

End InvariantProofs.

(** ** Initial state *)

(** C7, as the code has it: with at least one variant the card mounts, the
    selected variant is the first element of the [variants] array of the
    first render, that is the first variant of the product in list order,
    as fetched or with the fake sale attached; nothing is previewed and the
    card is not hovered. The variant the backend designates plays no part
    in it. *)
Theorem initial_state
    (random : nat -> Q) (product : Product.t) (calls firstId : nat) :
  1 <= List.length (productVariants product) ->
  (exists c first rest,
     mount random product calls firstId = Some c
     /\ variants c = first :: rest
     /\ selectedVariant (state c) = first
     /\ variantAt product 0 first
     /\ hoverVariant (state c) = None
     /\ isHovering (state c) = false)
  /\ forall designated,
       mount random (withDesignated designated product) calls firstId
       = mount random product calls firstId.
Proof.
  intros HN. split; [|reflexivity].
  unfold mount.
  destruct (addFakeSaleOnSomeProducts random calls (productVariants product))
    as [vs n'] eqn:E.
  pose proof (addFakeSale_result _ _ _ _ _ E) as HF.
  destruct vs as [|first rest].
  - apply Forall2_length in HF. simpl in HF. lia.
  - unfold hoverEffect. simpl.
    eexists _, first, rest. split; [reflexivity|]. simpl.
    repeat split. eapply nth_fromProduct; eauto.
Qed.

Lemma initial_state_witness :
  1 <= List.length (productVariants shirt)
  /\ (exists c first rest,
        mount alwaysSale shirt 0 0 = Some c
        /\ variants c = first :: rest
        /\ selectedVariant (state c) = first
        /\ variantAt shirt 0 first
        /\ hoverVariant (state c) = None
        /\ isHovering (state c) = false)
  /\ forall designated,
       mount alwaysSale (withDesignated designated shirt) 0 0
       = mount alwaysSale shirt 0 0.
Proof.
  assert (H : 1 <= List.length (productVariants shirt)) by (simpl; lia).
  split; [exact H|].
  exact (initial_state alwaysSale shirt 0 0 H).
Defined.

(** C7 as stated fails: the backend designates the blue variant of the
    shirt, whose red variant is sold out, yet the card starts on the red
    one, the first of the list. *)
Lemma initial_selection_ignores_designated :
  1 <= List.length (productVariants shirt)
  /\ Product.selectedOrFirstAvailableVariant shirt = Some blue
  /\ exists c,
       mount neverSale shirt 0 0 = Some c
       /\ selectedVariant (state c) = red
       /\ Some (selectedVariant (state c))
          <> Product.selectedOrFirstAvailableVariant shirt.
Proof.
  split; [simpl; lia|]. split; [reflexivity|].
  exists shirtCard. split; [reflexivity|]. split; [reflexivity|].
  simpl. intro H. discriminate H.
Qed.

(** ** The timer *)

Section TimerProofs.

Variable random : nat -> Q.
Variable product : Product.t.

Lemma Inv_length c :
  Inv product c ->
  List.length (variants c) = List.length (productVariants product).
Proof.
  intros H. symmetry. eapply Forall2_length, inv_variants, H.
Qed.

Lemma timerInv_cases c :
  timerInv c ->
  (isHovering (state c) = true /\ 1 < List.length (variants c)
   /\ exists i,
        active (timers c) =
          [(i, {| cl_variants := variants c;
                  cl_selectedVariant := selectedVariant (state c) |})]
        /\ cleanup c = Some i /\ i < fresh (timers c))
  \/ ((isHovering (state c) = false \/ List.length (variants c) <= 1)
      /\ active (timers c) = [] /\ cleanup c = None).
Proof.
  unfold timerInv.
  destruct (isHovering (state c)); simpl.
  - destruct (1 <? List.length (variants c)) eqn:E.
    + apply Nat.ltb_lt in E. intros H. left. auto.
    + apply Nat.ltb_ge in E. intros H. right. auto.
  - intros H. right. auto.
Qed.

Lemma rerender_cancels st' c interval :
  timerInv c ->
  armed c = Some interval ->
  lookupInterval interval
    (active (timers (rerender random product st' c))) = None.
Proof.
  intros Ht Ha. rewrite rerender_eq. simpl.
  destruct (runCleanup_clears c Ht) as [Hact Hfresh].
  assert (Hlt : interval < fresh (timers c)).
  { unfold armed in Ha.
    destruct (timerInv_cases c Ht) as [(_ & _ & i & Hi & _ & Hlt)|(_ & Hi & _)];
      rewrite Hi in Ha; [|discriminate].
    injection Ha as <-. exact Hlt. }
  unfold hoverEffect.
  destruct (negb (isHovering st') || _); simpl.
  - rewrite Hact. reflexivity.
  - rewrite Hact, Hfresh. simpl.
    destruct (fresh (timers c) =? interval) eqn:E; [|reflexivity].
    apply Nat.eqb_eq in E. lia.
Qed.

End TimerProofs.

(** C8: in a reachable card at most one interval is armed, and one is armed
    exactly when the card is hovered and the product has more than one
    variant. The effect itself refuses to arm an interval over a list of
    one variant, so such a card never has one. The interval is cancelled as
    soon as an event leaves the card not hovered, whenever the card renders
    again, and when it unmounts. *)
Theorem one_timer_iff_hovering
    (random : nat -> Q) (product : Product.t) (c : Card) :
  reachable random product c ->
  List.length (active (timers c)) <= 1
  /\ (active (timers c) <> [] <->
      isHovering (state c) = true
      /\ 1 < List.length (productVariants product))
  /\ (List.length (productVariants product) = 1 ->
      active (timers c) = []
      /\ forall st t, hoverEffect st (variants c) t = (None, t))
  /\ (forall ev c',
        fire random product ev c = Some c' ->
        isHovering (state c') = false -> active (timers c') = [])
  /\ (forall st' interval,
        armed c = Some interval ->
        lookupInterval interval
          (active (timers (rerender random product st' c))) = None)
  /\ active (unmount c) = [].
Proof.
  intros Hr. pose proof (reachable_Inv _ _ _ Hr) as HI.
  pose proof (Inv_length _ _ HI) as HL.
  pose proof (inv_timer _ _ HI) as Ht.
  assert (Hiff : forall d, Inv product d ->
            (active (timers d) <> [] <->
             isHovering (state d) = true
             /\ 1 < List.length (productVariants product))).
  { intros d Hd. rewrite <- (Inv_length _ _ Hd).
    destruct (timerInv_cases d (inv_timer _ _ Hd))
      as [(Hh & Hn & i & Hi & _)|(Hno & Hi & _)]; rewrite Hi; split.
    - auto.
    - discriminate.
    - congruence.
    - intros [Hh Hn]. destruct Hno; [congruence|lia]. }
  split; [|split; [|split; [|split; [|split]]]].
  - destruct (timerInv_cases c Ht) as [(_ & _ & i & Hi & _)|(_ & Hi & _)];
      rewrite Hi; simpl; lia.
  - apply Hiff, HI.
  - intros H1. split.
    + destruct (active (timers c)) eqn:E; [reflexivity|].
      assert (Hne : active (timers c) <> []) by (rewrite E; discriminate).
      apply (Hiff c HI) in Hne. lia.
    + intros st t. unfold hoverEffect. rewrite HL, H1. simpl.
      rewrite orb_true_r. reflexivity.
  - intros ev c' Hf Hh.
    pose proof (fire_Inv _ _ _ _ _ HI Hf) as HI'.
    destruct (active (timers c')) eqn:E; [reflexivity|].
    assert (Hne : active (timers c') <> []) by (rewrite E; discriminate).
    apply (Hiff c' HI') in Hne. destruct Hne. congruence.
  - intros st' interval. now apply rerender_cancels.
  - unfold unmount. apply (runCleanup_clears c Ht).
Qed.

(** ** The hover cycle *)

Lemma findIndex_by_id (vs : list Variant) :
  NoDup (map ProductVariant.id vs) ->
  forall i w u,
    nth_error vs i = Some w ->
    ProductVariant.id u = ProductVariant.id w ->
    indexOf vs u = Z.of_nat i.
Proof.
  unfold indexOf.
  induction vs as [|x vs IH]; intros Hnd i w u Hn Hid.
  - destruct i; discriminate.
  - simpl in Hnd. apply NoDup_cons_iff in Hnd as [Hx Hnd].
    destruct i as [|i]; simpl in Hn.
    + injection Hn as ->. simpl. rewrite Hid, String.eqb_refl. reflexivity.
    + simpl. destruct (String.eqb_spec (ProductVariant.id x) (ProductVariant.id u))
        as [E|E].
      * exfalso. apply Hx. rewrite E, Hid.
        apply in_map, (nth_error_In _ _ Hn).
      * rewrite (IH Hnd i w u Hn Hid).
        destruct (Z.ltb_spec (Z.of_nat i) 0); lia.
Qed.

Lemma fakeSale_ids (base vs : list Variant) :
  Forall2 fakeSaleOf base vs ->
  map ProductVariant.id vs = map ProductVariant.id base.
Proof.
  induction 1 as [|b v base vs Hbv _ IH]; simpl; [reflexivity|].
  rewrite IH, (fakeSaleOf_id _ _ Hbv). reflexivity.
Qed.

Lemma at_index_of_nat {A} (l : list A) (m : nat) :
  at_index l (Z.of_nat m) = nth_error l m.
Proof.
  unfold at_index. destruct (Z.ltb_spec (Z.of_nat m) 0); [lia|].
  now rewrite Nat2Z.id.
Qed.

Lemma rem_succ_of_nat (j n : nat) :
  0 < n ->
  Z.rem (Z.of_nat j + 1) (Z.of_nat n) = Z.of_nat ((j + 1) mod n).
Proof.
  intros Hn. rewrite Z.rem_mod_nonneg by lia.
  rewrite Nat2Z.inj_mod, Nat2Z.inj_add. reflexivity.
Qed.

Section CycleProofs.

Variable random : nat -> Q.
Variable product : Product.t.

Let base := productVariants product.
Let N := List.length base.

Hypothesis unique_ids : NoDup (map ProductVariant.id base).
Hypothesis two_variants : 2 <= N.

(** The index the tick computes is the index of the displayed variant. *)
Lemma displayed_index vs j v :
  Forall2 fakeSaleOf base vs ->
  variantAt product j v ->
  indexOf vs v = Z.of_nat j /\ indexOf base v = Z.of_nat j.
Proof.
  intros HF (b & Hb & Hbv).
  destruct (Forall2_nth_error_l _ _ _ HF j b Hb) as (w & Hw & Hbw).
  split.
  - apply findIndex_by_id with (w := w); auto.
    + rewrite (fakeSale_ids _ _ HF). exact unique_ids.
    + rewrite (fakeSaleOf_id _ _ Hbv), (fakeSaleOf_id _ _ Hbw). reflexivity.
  - apply findIndex_by_id with (w := b); auto.
    apply (fakeSaleOf_id _ _ Hbv).
Qed.

Lemma nextHoverVariant_displayed vs st :
  nextHoverVariant vs (selectedVariant st) (hoverVariant st) =
    at_index vs
      (Z.rem (indexOf vs (displayedVariant st) + 1) (Z.of_nat (List.length vs))).
Proof.
  unfold nextHoverVariant, displayedVariant, indexOf.
  destruct (hoverVariant st); reflexivity.
Qed.

(** One tick of a hovered card showing the variant of index [j]. *)
Lemma tick_advances c j :
  Inv product c ->
  isHovering (state c) = true ->
  variantAt product j (displayedVariant (state c)) ->
  exists c' h,
    tick random product c = Some c'
    /\ nth_error (variants c) ((j + 1) mod N) = Some h
    /\ hoverVariant (state c') = Some h
    /\ selectedVariant (state c') = selectedVariant (state c)
    /\ isHovering (state c') = true
    /\ variantAt product ((j + 1) mod N) (displayedVariant (state c'))
    /\ Inv product c'.
Proof.
  intros HI Hh Hj.
  pose proof (inv_variants _ _ HI) as HF.
  pose proof (Inv_length _ _ HI) as HL. fold base N in HL.
  destruct (timerInv_cases c (inv_timer _ _ HI))
    as [(_ & _ & i & Hi & _)|([Hno|Hno] & _)]; [|congruence|lia].
  assert (Hlt : (j + 1) mod N < List.length (variants c)).
  { rewrite HL. apply Nat.mod_upper_bound. lia. }
  destruct (nth_error (variants c) ((j + 1) mod N)) as [h|] eqn:Hn;
    [|apply nth_error_None in Hn; lia].
  assert (Hnext : nextHoverVariant (variants c) (selectedVariant (state c))
                    (hoverVariant (state c)) = Some h).
  { rewrite nextHoverVariant_displayed.
    destruct (displayed_index _ _ _ HF Hj) as [-> _].
    rewrite HL, rem_succ_of_nat by lia.
    rewrite at_index_of_nat. exact Hn. }
  assert (Htick : tick random product c =
                  Some (rerender random product
                          (setHoverVariant (Some h) (state c)) c)).
  { unfold tick, armed. rewrite Hi. simpl. rewrite Hi. simpl.
    rewrite Nat.eqb_refl. simpl. rewrite Hnext. reflexivity. }
  exists (rerender random product (setHoverVariant (Some h) (state c)) c), h.
  split; [exact Htick|].
  assert (Hat : variantAt product ((j + 1) mod N) h)
    by (eapply nth_fromProduct; eauto).
  assert (HI' : Inv product
                  (rerender random product (setHoverVariant (Some h) (state c)) c)).
  { apply rerender_Inv; simpl.
    - apply HI.
    - apply HI.
    - intros h' [= <-]. eexists; eauto. }
  rewrite rerender_eq in *. simpl in *. auto 10.
Qed.

(** [k] ticks of a hovered card showing the variant of index [j]. *)
Lemma ticks_advance k :
  forall c j,
    Inv product c ->
    isHovering (state c) = true ->
    j < N ->
    variantAt product j (displayedVariant (state c)) ->
    exists ck,
      ticks random product k c = Some ck
      /\ Inv product ck
      /\ isHovering (state ck) = true
      /\ selectedVariant (state ck) = selectedVariant (state c)
      /\ variantAt product ((j + k) mod N) (displayedVariant (state ck)).
Proof.
  induction k as [|k IH]; intros c j HI Hh Hj Hat.
  - exists c. simpl. rewrite Nat.add_0_r, Nat.mod_small by exact Hj. auto.
  - destruct (IH c j HI Hh Hj Hat) as (ck & Hk & HIk & Hhk & Hsk & Hatk).
    destruct (tick_advances ck _ HIk Hhk Hatk)
      as (c' & h & Ht & _ & _ & Hs' & Hh' & Hat' & HI').
    exists c'. simpl. rewrite Hk. split; [exact Ht|].
    split; [exact HI'|]. split; [exact Hh'|]. split; [congruence|].
    replace ((j + S k) mod N) with (((j + k) mod N + 1) mod N); [exact Hat'|].
    rewrite Nat.Div0.add_mod_idemp_l. f_equal. lia.
Qed.

End CycleProofs.

Lemma sameOtherFields_common b v w :
  sameOtherFields b v -> sameOtherFields b w -> sameOtherFields w v.
Proof.
  unfold sameOtherFields.
  intros (A1 & A2 & A3 & A4 & A5 & A6 & A7 & A8)
         (B1 & B2 & B3 & B4 & B5 & B6 & B7 & B8).
  repeat split; congruence.
Qed.

(** C2, as the code has it: take a product with two variants or more, each
    with its own id, a
    reachable card of it that is hovered, and [start] the index in the
    product's list of the variant the card displays. Then [k] ticks fire one
    after the other, the card stays hovered, and the variant displayed after
    them is the one of index [(start + k) mod N]: it is that variant of the
    product, as fetched or with the fake sale of the render it was taken
    from, it has the id, image, price and every other field but the
    compare-at price of entry [(start + k) mod N] of the current [variants]
    array, and the tick computes that index for it. One more tick sets
    [hoverVariant] to the entry after it, wrapping at the end, of the
    [variants] array its interval was armed over. *)
Theorem hover_cycle
    (random : nat -> Q) (product : Product.t) (c : Card) (k : nat) :
  NoDup (map ProductVariant.id (productVariants product)) ->
  2 <= List.length (productVariants product) ->
  reachable random product c ->
  isHovering (state c) = true ->
  let N := List.length (productVariants product) in
  let start :=
    Z.to_nat (indexOf (productVariants product) (displayedVariant (state c))) in
  exists ck,
    ticks random product k c = Some ck
    /\ isHovering (state ck) = true
    /\ variantAt product ((start + k) mod N) (displayedVariant (state ck))
    /\ (exists w, nth_error (variants ck) ((start + k) mod N) = Some w
                  /\ sameOtherFields w (displayedVariant (state ck)))
    /\ indexOf (variants ck) (displayedVariant (state ck))
       = Z.of_nat ((start + k) mod N)
    /\ exists c' next,
         tick random product ck = Some c'
         /\ nth_error (variants ck) (((start + k) mod N + 1) mod N) = Some next
         /\ hoverVariant (state c') = Some next.
Proof.
  intros Hnd HN Hr Hh N start.
  pose proof (reachable_Inv _ _ _ Hr) as HI.
  assert (Hdisp : fromProduct product (displayedVariant (state c))).
  { unfold displayedVariant. destruct (hoverVariant (state c)) as [h|] eqn:E.
    - now apply (inv_hover _ _ HI).
    - apply (inv_selected _ _ HI). }
  destruct Hdisp as [j Hj].
  assert (Hstart : start = j).
  { unfold start.
    destruct (displayed_index product Hnd _ _ _ (inv_variants _ _ HI) Hj)
      as [_ ->].
    apply Nat2Z.id. }
  assert (Hjlt : j < N).
  { destruct Hj as (b & Hb & _). apply nth_error_Some. congruence. }
  rewrite Hstart.
  destruct (ticks_advance random product Hnd HN k c j HI Hh Hjlt Hj)
    as (ck & Hk & HIk & Hhk & _ & Hatk).
  exists ck. split; [exact Hk|]. split; [exact Hhk|]. split; [exact Hatk|].
  split.
  { destruct Hatk as (b & Hb & Hbv).
    destruct (Forall2_nth_error_l _ _ _ (inv_variants _ _ HIk) _ _ Hb)
      as (w & Hw & Hbw).
    exists w. split; [exact Hw|].
    eapply sameOtherFields_common; eauto using fakeSaleOf_sameOtherFields. }
  split.
  { apply (displayed_index product Hnd _ _ _ (inv_variants _ _ HIk) Hatk). }
  destruct (tick_advances random product Hnd HN ck _ HIk Hhk Hatk)
    as (c' & next & Ht & Hn & Hhov & _).
  exists c', next. auto.
Qed.

(** ** The catalog fetch *)

Lemma cardProducts_cards (nodes : list Product.t) :
  flat_map cardProducts
    (map (fun product => ProductCardElement (Product.id product) product) nodes)
  = nodes.
Proof.
  induction nodes as [|p nodes IH]; simpl; [reflexivity|]. now rewrite IH.
Qed.

(** C9, as the code has it: the loader sends the query once, whatever
    comes of it, and nothing sends it again. A rejection is logged and
    becomes a promise fulfilled with null, under which the section renders
    null: the page is the heading with nothing under it. While the query is
    pending the page shows the "Loading..." placeholder under the heading.
    A result is rendered as the grid container with one card per product,
    so an empty result renders the empty grid container, not nothing. In
    each of these cases the page renders and no error is thrown. *)
Theorem catalog_fetch_outcomes
    (random : nat -> Q) (calls firstId : nat) (sf : Storefront) (w : World) :
  let outcome := answer sf RECOMMENDED_PRODUCTS_QUERY in
  let data := fst (loadDeferredData sf w) in
  let w' := snd (loadDeferredData sf w) in
  let page := fst (Homepage random calls firstId sf w) in
  let home := fun inner =>
    Tag "div" "home"
      [Tag "div" "recommended-products"
         [Tag "h2" "" [Text "Recommended Products"]; inner; Tag "br" "" []]] in
  sent w' = sent w ++ [RECOMMENDED_PRODUCTS_QUERY]
  /\ snd (Homepage random calls firstId sf w) = w'
  /\ match outcome with
     | Rejected error =>
         recommendedProducts data = Fulfilled None
         /\ console w' = console w ++ [error]
         /\ underHeading (recommendedProducts data) = Shown Null
         /\ page = Shown (home Null)
     | Pending =>
         recommendedProducts data = Pending
         /\ console w' = console w
         /\ underHeading (recommendedProducts data)
            = Shown (Tag "div" "" [Text "Loading..."])
         /\ page = Shown (home (Tag "div" "" [Text "Loading..."]))
     | Fulfilled r =>
         recommendedProducts data = Fulfilled (Some r)
         /\ console w' = console w
         /\ underHeading (recommendedProducts data)
            = Shown (Tag "div" "recommended-products-grid"
                       (map (fun product =>
                               ProductCardElement (Product.id product) product)
                            (RecommendedProductsQuery.nodes
                               (RecommendedProductsQuery.products r))))
         /\ match RecommendedProductsQuery.nodes
                    (RecommendedProductsQuery.products r) with
            | [] =>
                page = Shown (home (Tag "div" "recommended-products-grid" []))
            | _ :: _ => True
            end
     end.
Proof.
  unfold Homepage, loader, loadDeferredData, storefront_query. simpl.
  destruct (answer sf RECOMMENDED_PRODUCTS_QUERY) as [|r|error]; simpl.
  - repeat split.
  - split; [reflexivity|]. split; [reflexivity|].
    split; [reflexivity|]. split; [reflexivity|]. split; [reflexivity|].
    destruct r as [[nodes]]; simpl. destruct nodes; [reflexivity|exact I].
  - repeat split.
Qed.

(** C9 as stated fails for the empty result: under the heading stands the
    grid container, empty, where a null result leaves nothing. *)
Lemma empty_result_renders_grid :
  answer emptyStorefront RECOMMENDED_PRODUCTS_QUERY = Fulfilled emptyResponse
  /\ RecommendedProductsQuery.nodes
       (RecommendedProductsQuery.products emptyResponse) = []
  /\ underHeading
       (recommendedProducts (fst (loadDeferredData emptyStorefront emptyWorld)))
     = Shown (Tag "div" "recommended-products-grid" [])
  /\ underHeading
       (recommendedProducts (fst (loadDeferredData emptyStorefront emptyWorld)))
     <> Shown Null.
Proof.
  repeat split. simpl. intro H. discriminate H.
Qed.

(** * Further properties of the code *)

(** ** Price and badge *)

(** X1: the badge and the struck-through price go together. The card shows
    the badge exactly when [Price] renders a compare-at price struck
    through, and then it is the selected variant's; otherwise [Price]
    renders the selected variant's price alone. *)
Theorem badge_agrees_with_price (st : CardState) :
  (saleBadgeShown st = true <->
   exists compareAt,
     Price (priceProps (renderCard st))
     = StruckThrough compareAt (ProductVariant.price (selectedVariant st)))
  /\ (saleBadgeShown st = false <->
      Price (priceProps (renderCard st))
      = MoneyOnly (ProductVariant.price (selectedVariant st))).
Proof.
  unfold saleBadgeShown, Price, renderCard; simpl.
  destruct (ProductVariant.compareAtPrice (selectedVariant st)) as [m|]; simpl.
  - split; split; try discriminate; eauto.
  - split; split; try discriminate; auto. intros [m H]. discriminate.
Qed.

(** ** Swatches *)

(** X2: a swatch degrades without failing. The button is filled with the
    swatch colour when there is a non-empty one and is transparent
    otherwise; it holds an image exactly when the swatch has a non-empty
    preview URL, with that URL and the value name as alternative text; the
    label and the click target are the value name, and the selected class
    is there exactly when the swatch is selected. *)
Theorem swatch_degrades (props : SwatchProps.t) :
  let b := Swatch props in
  let color := swatchColor (SwatchProps.swatch props) in
  let url := swatchImageUrl (SwatchProps.swatch props) in
  ariaLabel b = SwatchProps.name props
  /\ buttonOnClick b = SwatchProps.onClick props
  /\ (if truthyString color then Some (backgroundColor b) = color
      else backgroundColor b = "transparent")
  /\ (if truthyString url
      then exists u, url = Some u
                     /\ img b = Some {| src := u; alt := SwatchProps.name props |}
      else img b = None)
  /\ (className b = String.append "w-6 h-6 rounded-full " selectedClass
      <-> SwatchProps.isSelected props = true).
Proof.
  simpl. split; [reflexivity|]. split; [reflexivity|].
  split; [|split].
  - destruct (swatchColor (SwatchProps.swatch props)) as [[|a r]|]; reflexivity.
  - destruct (swatchImageUrl (SwatchProps.swatch props)) as [[|a r]|]; simpl; eauto.
  - destruct (SwatchProps.isSelected props); simpl; split; auto; discriminate.
Qed.

Lemma shownSwatches_cons child children :
  shownSwatches (child :: children)
  = match child with Some l => l | None => [] end ++ shownSwatches children.
Proof. reflexivity. Qed.

(** X3: the card shows one swatch per value of the options named color,
    whatever the case of the name, in the order of the options and of their
    values, and none for any other option; each swatch is labelled with its
    value name and clicks with that name. *)
Theorem swatches_of_color_options
    (productOptions : list ProductOption.t) (st : CardState) :
  let values :=
    flat_map ProductOption.optionValues (filter isColorNamed productOptions) in
  map ariaLabel (shownSwatches (renderSwatches productOptions st))
  = map OptionValue.name values
  /\ map buttonOnClick (shownSwatches (renderSwatches productOptions st))
     = map OptionValue.name values
  /\ List.length (shownSwatches (renderSwatches productOptions st))
     = List.length values.
Proof.
  cbv zeta.
  induction productOptions as [|o opts IH]; [repeat split|].
  destruct IH as (IH1 & IH2 & IH3).
  change (renderSwatches (o :: opts) st)
    with ((if negb (isColorNamed o) then None
           else Some (map (fun value =>
                  Swatch {| SwatchProps.swatch := OptionValue.swatch value;
                            SwatchProps.name := OptionValue.name value;
                            SwatchProps.isSelected :=
                              matchesColor (OptionValue.name value)
                                           (selectedVariant st);
                            SwatchProps.onClick := OptionValue.name value |})
                  (ProductOption.optionValues o)))
          :: renderSwatches opts st).
  rewrite shownSwatches_cons. cbn [filter].
  destruct (isColorNamed o); cbn [negb flat_map app].
  - rewrite !map_app, !length_app, IH1, IH2, IH3, !map_map, !length_map.
    repeat split.
  - auto.
Qed.

Lemma shownSwatches_in productOptions st b :
  In b (shownSwatches (renderSwatches productOptions st)) ->
  exists value,
    b = Swatch {| SwatchProps.swatch := OptionValue.swatch value;
                  SwatchProps.name := OptionValue.name value;
                  SwatchProps.isSelected :=
                    matchesColor (OptionValue.name value) (selectedVariant st);
                  SwatchProps.onClick := OptionValue.name value |}.
Proof.
  unfold shownSwatches, renderSwatches. rewrite in_flat_map.
  intros (child & Hc & Hb). apply in_map_iff in Hc as (o & <- & _).
  destruct (negb (isColorNamed o)); [destruct Hb|].
  apply in_map_iff in Hb as (value & <- & _). exists value. reflexivity.
Qed.

Lemma matchesColor_same_fold name name' v :
  toLowerCase name' = toLowerCase name ->
  matchesColor name' v = matchesColor name v.
Proof.
  intros H. unfold matchesColor, isColorOption. now rewrite H.
Qed.

(** X4: a click that finds a variant marks its swatch. After a click on
    [colorName] that some variant matches, every swatch shown whose value
    name is [colorName], whatever the case, carries the selected class. *)
Theorem clicked_swatch_is_marked
    (productOptions : list ProductOption.t) (variants : list Variant)
    (colorName : string) (st : CardState) (b : ButtonElement) :
  (exists v, In v variants /\ hasColor colorName v) ->
  In b (shownSwatches
          (renderSwatches productOptions
             (handleVariantClick variants colorName st))) ->
  toLowerCase (ariaLabel b) = toLowerCase colorName ->
  className b = String.append "w-6 h-6 rounded-full " selectedClass.
Proof.
  intros (w & Hin & Hw) Hb Hname.
  apply shownSwatches_in in Hb as (value & ->). simpl in *.
  rewrite (matchesColor_same_fold _ _ _ Hname).
  unfold handleVariantClick.
  destruct (find (matchesColor colorName) variants) as [v|] eqn:Hf; simpl.
  - apply find_some in Hf as [_ ->]. reflexivity.
  - apply matchesColor_hasColor in Hw.
    rewrite (find_none _ _ Hf w Hin) in Hw. discriminate.
Qed.

(** ** The fake sale *)

Lemma Qltb_lt x y : Qltb x y = true <-> (x < y)%Q.
Proof.
  unfold Qltb. rewrite negb_true_iff. split.
  - intros H. apply Qnot_le_lt. intros Hle.
    apply Qle_bool_iff in Hle. congruence.
  - intros H. destruct (Qle_bool y x) eqn:E; [|reflexivity].
    apply Qle_bool_iff in E. exfalso. exact (Qlt_not_le _ _ H E).
Qed.

Lemma Qltb_ge x y : Qltb x y = false <-> (y <= x)%Q.
Proof.
  unfold Qltb. rewrite negb_false_iff. apply Qle_bool_iff.
Qed.

Lemma addFakeSale_nth random vs :
  forall n i,
    nth_error (fst (addFakeSaleOnSomeProducts random n vs)) i
    = option_map (addFakeSale_one random (n + i)) (nth_error vs i).
Proof.
  induction vs as [|v vs IH]; intros n i; simpl.
  - destruct i; reflexivity.
  - specialize (IH (S n)).
    destruct (addFakeSaleOnSomeProducts random (S n) vs) as [rest n'].
    simpl in *. destruct i as [|i]; simpl.
    + now rewrite Nat.add_0_r.
    + rewrite IH. now rewrite Nat.add_succ_r.
Qed.

(** X5: the draws fall on the variants by position. The variant at
    position [i] is replaced by its copy with the 300.0 CAD compare-at
    price, whatever compare-at price it had, when the [i]-th draw of the
    call is below 0.5, and is returned as it is when that draw is 0.5 or
    more. *)
Theorem addFakeSale_by_position
    (random : nat -> Q) (n : nat) (variants : list Variant)
    (i : nat) (v : Variant) :
  nth_error variants i = Some v ->
  exists v',
    nth_error (fst (addFakeSaleOnSomeProducts random n variants)) i = Some v'
    /\ ((random (n + i)%nat < 1 # 2)%Q ->
        v' = withCompareAtPrice (Some fakeSale) v
        /\ ProductVariant.compareAtPrice v' = Some fakeSale)
    /\ ((1 # 2 <= random (n + i)%nat)%Q -> v' = v).
Proof.
  intros Hv. rewrite addFakeSale_nth, Hv. simpl.
  eexists. split; [reflexivity|]. unfold addFakeSale_one. split; intros H.
  - apply Qltb_lt in H. rewrite H. auto.
  - apply Qltb_ge in H. rewrite H. reflexivity.
Qed.

Lemma addFakeSale_by_position_witness :
  nth_error [red; blue] 1 = Some blue
  /\ exists v',
       nth_error (fst (addFakeSaleOnSomeProducts saleOnEven 1 [red; blue])) 1
       = Some v'
       /\ ((saleOnEven (1 + 1)%nat < 1 # 2)%Q ->
           v' = withCompareAtPrice (Some fakeSale) blue
           /\ ProductVariant.compareAtPrice v' = Some fakeSale)
       /\ ((1 # 2 <= saleOnEven (1 + 1)%nat)%Q -> v' = blue).
Proof.
  assert (H : nth_error [red; blue] 1 = Some blue) by reflexivity.
  split; [exact H|].
  exact (addFakeSale_by_position saleOnEven 1 [red; blue] 1 blue H).
Defined.

Lemma fakeSaleOf_matchesColor colorName v v' :
  fakeSaleOf v v' -> matchesColor colorName v' = matchesColor colorName v.
Proof. intros [->| ->]; reflexivity. Qed.

Lemma find_fakeSale colorName base vs :
  Forall2 fakeSaleOf base vs ->
  match find (matchesColor colorName) base,
        find (matchesColor colorName) vs with
  | Some v, Some v' => fakeSaleOf v v'
  | None, None => True
  | _, _ => False
  end.
Proof.
  induction 1 as [|b v base vs Hbv _ IH]; simpl; [exact I|].
  rewrite (fakeSaleOf_matchesColor colorName _ _ Hbv).
  destruct (matchesColor colorName b); [exact Hbv|exact IH].
Qed.

(** X6: the fake sale does not change which variant a swatch selects. On
    the list [addFakeSaleOnSomeProducts] returns, a click finds a variant
    exactly when it finds one on the list it was given, and what it finds
    is that same variant, as it was or with the fake sale. *)
Theorem click_target_ignores_fake_sale
    (random : nat -> Q) (n : nat) (variants : list Variant)
    (colorName : string) :
  match find (matchesColor colorName) variants,
        find (matchesColor colorName)
             (fst (addFakeSaleOnSomeProducts random n variants)) with
  | Some v, Some v' => v' = v \/ v' = withCompareAtPrice (Some fakeSale) v
  | None, None => True
  | _, _ => False
  end.
Proof.
  apply (find_fakeSale colorName), addFakeSale_Forall2.
Qed.

(** ** Mounting *)

(** X7: the card mounts exactly when the product has a variant; with none
    the first render fails. *)
Theorem mount_fails_without_variant
    (random : nat -> Q) (product : Product.t) (calls firstId : nat) :
  mount random product calls firstId = None <-> productVariants product = [].
Proof.
  unfold mount.
  pose proof (addFakeSale_length random (productVariants product) calls) as HL.
  destruct (addFakeSaleOnSomeProducts random calls (productVariants product))
    as [vs n']. simpl in HL.
  destruct vs as [|first rest]; simpl in HL.
  - split; [|reflexivity]. intros _.
    destruct (productVariants product); [reflexivity|discriminate].
  - destruct (hoverEffect _ _ _) as [cl t]. split; [discriminate|].
    intros E. rewrite E in HL. discriminate.
Qed.

(** ** The tick, whatever the list *)

Lemma findIndex_range {A} (p : A -> bool) (l : list A) :
  (-1 <= findIndex p l < Z.of_nat (List.length l))%Z.
Proof.
  induction l as [|x l IH]; simpl; [lia|].
  destruct (p x); [lia|].
  destruct (Z.ltb_spec (findIndex p l) 0); lia.
Qed.

Lemma findIndex_none {A} (p : A -> bool) (l : list A) :
  (forall x, In x l -> p x = false) -> findIndex p l = (-1)%Z.
Proof.
  induction l as [|x l IH]; intros H; simpl; [reflexivity|].
  rewrite (H x (or_introl eq_refl)), IH by (intros y Hy; apply H; now right).
  reflexivity.
Qed.

(** X8: the tick never reads outside the array. On a list that is not
    empty the updater returns one of its variants, whatever the selected
    and the previous variant are, be they of the list or not. *)
Theorem nextHoverVariant_in_list
    (variants : list Variant) (selected : Variant) (prev : option Variant) :
  variants <> [] ->
  exists v,
    nextHoverVariant variants selected prev = Some v /\ In v variants.
Proof.
  intros Hne. unfold nextHoverVariant.
  cbv zeta.
  match goal with |- context [findIndex ?q variants] => set (p := q) end.
  pose proof (findIndex_range p variants) as Hr.
  assert (HN : (0 < Z.of_nat (List.length variants))%Z).
  { destruct variants; [contradiction|simpl; lia]. }
  assert (Hm : (0 <= Z.rem (findIndex p variants + 1) (Z.of_nat (List.length variants))
                < Z.of_nat (List.length variants))%Z).
  { rewrite Z.rem_mod_nonneg by lia. apply Z.mod_pos_bound. lia. }
  unfold at_index.
  destruct (Z.ltb_spec
              (Z.rem (findIndex p variants + 1) (Z.of_nat (List.length variants))) 0);
    [lia|].
  destruct (nth_error variants _) as [v|] eqn:E.
  - exists v. split; [reflexivity|]. eapply nth_error_In; eauto.
  - apply nth_error_None in E. lia.
Qed.

Lemma nextHoverVariant_in_list_witness :
  [red; blue] <> []
  /\ exists v,
       nextHoverVariant [red; blue] navy (Some navy) = Some v
       /\ In v [red; blue].
Proof.
  assert (H : [red; blue] <> []) by discriminate.
  split; [exact H|].
  exact (nextHoverVariant_in_list [red; blue] navy (Some navy) H).
Defined.

(** X9: a variant that is not in the list sends the cycle to its start.
    When no variant of the list has the id of the previewed variant, or of
    the selected one when nothing is previewed, the updater returns the
    first variant of the list, and nothing on an empty list. *)
Theorem nextHoverVariant_unknown_restarts
    (variants : list Variant) (selected : Variant) (prev : option Variant) :
  (forall v, In v variants ->
     ProductVariant.id v
     <> ProductVariant.id (match prev with Some p => p | None => selected end)) ->
  nextHoverVariant variants selected prev = nth_error variants 0.
Proof.
  intros H. unfold nextHoverVariant.
  rewrite findIndex_none.
  - simpl. destruct variants as [|v0 rest]; [reflexivity|].
    rewrite Z.rem_0_l by (simpl; lia). reflexivity.
  - intros v Hv. apply String.eqb_neq. specialize (H v Hv).
    destruct prev; exact H.
Qed.

Lemma nextHoverVariant_unknown_restarts_witness :
  (forall v, In v [blue; navy] ->
     ProductVariant.id v
     <> ProductVariant.id (match @None Variant with Some p => p | None => red end))
  /\ nextHoverVariant [blue; navy] red None = nth_error [blue; navy] 0.
Proof.
  assert (H : forall v, In v [blue; navy] ->
                ProductVariant.id v
                <> ProductVariant.id
                     (match @None Variant with Some p => p | None => red end)).
  { intros v Hin. simpl in Hin. destruct Hin as [<-|[<-|[]]]; discriminate. }
  split; [exact H|].
  exact (nextHoverVariant_unknown_restarts [blue; navy] red None H).
Defined.

(** ** The page *)

Lemma mount_isSome random product calls firstId :
  isSome (mount random product calls firstId)
  = negb (List.length (productVariants product) =? 0).
Proof.
  unfold mount.
  pose proof (addFakeSale_length random (productVariants product) calls) as HL.
  destruct (addFakeSaleOnSomeProducts random calls (productVariants product))
    as [vs n']. simpl in HL. rewrite <- HL.
  destruct vs as [|first rest]; [reflexivity|].
  destruct (hoverEffect _ _ _) as [cl t]. reflexivity.
Qed.

Lemma mountCards_isSome random firstId products :
  forall calls,
    isSome (mountCards random calls firstId products)
    = forallb (fun product =>
                 negb (List.length (productVariants product) =? 0)) products.
Proof.
  induction products as [|p products IH]; intros calls; simpl; [reflexivity|].
  rewrite <- mount_isSome with (random := random) (calls := calls)
                              (firstId := firstId).
  destruct (mount random p calls firstId) as [c|]; simpl; [|reflexivity].
  rewrite <- (IH (randomCalls c)).
  destruct (mountCards random (randomCalls c) firstId products); reflexivity.
Qed.

(** X10: what the page is for each outcome of the query. While the query
    is pending it is the home container around the section with the
    heading and the "Loading..." placeholder, after a rejection the heading
    with null under it. Once the query has resolved it is the heading with
    the grid of one card per product, keyed by the product id, in the order
    of the response, when every product has a variant; when a product has
    none, the render of its card throws and the page is not rendered. *)
Theorem homepage_shows
    (random : nat -> Q) (calls firstId : nat) (sf : Storefront) (w : World) :
  let page := fst (Homepage random calls firstId sf w) in
  let home := fun inner =>
    Tag "div" "home"
      [Tag "div" "recommended-products"
         [Tag "h2" "" [Text "Recommended Products"]; inner; Tag "br" "" []]] in
  match answer sf RECOMMENDED_PRODUCTS_QUERY with
  | Pending => page = Shown (home (Tag "div" "" [Text "Loading..."]))
  | Rejected _ => page = Shown (home Null)
  | Fulfilled r =>
      let nodes :=
        RecommendedProductsQuery.nodes (RecommendedProductsQuery.products r) in
      if forallb (fun product =>
                    negb (List.length (productVariants product) =? 0)) nodes
      then page
           = Shown (home (Tag "div" "recommended-products-grid"
                            (map (fun product =>
                                    ProductCardElement (Product.id product) product)
                                 nodes)))
      else exists error, page = Thrown error
  end.
Proof.
  unfold Homepage, loader, loadDeferredData, storefront_query, commit. simpl.
  destruct (answer sf RECOMMENDED_PRODUCTS_QUERY) as [|r|error]; simpl;
    try reflexivity.
  rewrite cardProducts_cards, !app_nil_r.
  rewrite <- (mountCards_isSome random firstId _ calls).
  destruct (mountCards random calls firstId _); simpl; eauto.
Qed.

(** ** What the events keep *)

Lemma state_rerender random product st' c :
  state (rerender random product st' c) = st'.
Proof. rewrite rerender_eq. reflexivity. Qed.

Lemma tick_keeps_selection random product c c' :
  tick random product c = Some c' ->
  selectedVariant (state c') = selectedVariant (state c)
  /\ isHovering (state c') = isHovering (state c).
Proof.
  unfold tick. destruct (armed c) as [i|]; [|discriminate]. simpl.
  destruct (lookupInterval i (active (timers c))) as [cb|]; [|discriminate].
  intros [= <-]. rewrite state_rerender. auto.
Qed.

Lemma ticks_selected random product k :
  forall c ck,
    ticks random product k c = Some ck ->
    selectedVariant (state ck) = selectedVariant (state c).
Proof.
  induction k as [|k IH]; simpl; intros c ck H.
  - now injection H as <-.
  - destruct (ticks random product k c) as [c'|] eqn:E; [|discriminate].
    apply tick_keeps_selection in H as [H _]. rewrite H. now apply IH.
Qed.

(** X11: the hover cycle touches the image alone. However many ticks fire,
    the selected variant stays, and with it the price, the compare-at
    price, the badge and the marking of the swatches. *)
Theorem ticks_keep_selection
    (random : nat -> Q) (product : Product.t)
    (productOptions : list ProductOption.t) (k : nat) (c ck : Card) :
  ticks random product k c = Some ck ->
  selectedVariant (state ck) = selectedVariant (state c)
  /\ displayedPrice (state ck) = displayedPrice (state c)
  /\ saleBadgeShown (state ck) = saleBadgeShown (state c)
  /\ renderSwatches productOptions (state ck)
     = renderSwatches productOptions (state c).
Proof.
  intros H. pose proof (ticks_selected _ _ _ _ _ H) as Hs.
  unfold displayedPrice, saleBadgeShown, renderSwatches, renderCard; simpl.
  rewrite Hs. auto.
Qed.

(** X12: only a click that finds a variant changes the selection. When an
    event leaves the card with another selected variant, the event was a
    click on a colour, and the new selected variant is the one the click
    found in the [variants] of the render it was made on. *)
Theorem only_click_changes_selection
    (random : nat -> Q) (product : Product.t) (ev : Event) (c c' : Card) :
  fire random product ev c = Some c' ->
  selectedVariant (state c') <> selectedVariant (state c) ->
  exists colorName,
    ev = Click colorName
    /\ find (matchesColor colorName) (variants c)
       = Some (selectedVariant (state c')).
Proof.
  intros Hf Hne. destruct ev; simpl in Hf.
  - destruct (isHovering (state c)); injection Hf as <-;
      [|rewrite state_rerender in Hne]; now contradiction Hne.
  - destruct (negb (isHovering (state c)) && negb (isSome (hoverVariant (state c))));
      injection Hf as <-;
      [|rewrite state_rerender in Hne]; now contradiction Hne.
  - exists colorName. split; [reflexivity|].
    unfold handleVariantClick in Hf.
    destruct (find (matchesColor colorName) (variants c)) as [v|];
      injection Hf as <-.
    + rewrite state_rerender. reflexivity.
    + now contradiction Hne.
  - destruct (lookupInterval interval (active (timers c))); [|discriminate].
    injection Hf as <-. rewrite state_rerender in Hne. now contradiction Hne.
  - injection Hf as <-. rewrite state_rerender in Hne. now contradiction Hne.
Qed.

(** ** Invariants of the reachable cards *)

Section ReachableProofs.

Variable random : nat -> Q.
Variable product : Product.t.

Lemma fire_atRest ev c c' :
  Inv product c -> atRest c -> fire random product ev c = Some c' -> atRest c'.
Proof.
  unfold atRest. intros HI HP. destruct ev; simpl.
  - destruct (isHovering (state c)) eqn:E; intros [= <-].
    + congruence.
    + rewrite state_rerender. discriminate.
  - destruct (negb (isHovering (state c)) && negb (isSome (hoverVariant (state c))));
      intros [= <-]; auto.
    rewrite state_rerender. reflexivity.
  - unfold handleVariantClick.
    destruct (find (matchesColor colorName) (variants c)); intros [= <-]; auto.
    rewrite state_rerender. reflexivity.
  - destruct (lookupInterval interval (active (timers c))) as [cb|] eqn:Hl;
      [|discriminate].
    intros [= <-]. rewrite state_rerender. simpl.
    destruct (armed_closure _ _ _ (inv_timer _ _ HI) Hl) as (Hh & _).
    congruence.
  - intros [= <-]. rewrite state_rerender. exact HP.
Qed.

Lemma reachable_atRest c : reachable random product c -> atRest c.
Proof.
  induction 1 as [calls firstId c Hm|ev c c' Hr IH Hf].
  - unfold mount in Hm.
    destruct (addFakeSaleOnSomeProducts _ _ _) as [[|first rest] n'];
      [discriminate|].
    destruct (hoverEffect _ _ _) as [cl t]. injection Hm as <-.
    intros _. reflexivity.
  - eapply fire_atRest; eauto using reachable_Inv.
Qed.

End ReachableProofs.

(** X13: nothing is previewed on a card that is not hovered. In every
    reachable card with [isHovering] false, [hoverVariant] is absent, so the
    variant and the image displayed are the selected ones. *)
Theorem preview_only_while_hovering
    (random : nat -> Q) (product : Product.t) (c : Card) :
  reachable random product c ->
  isHovering (state c) = false ->
  hoverVariant (state c) = None
  /\ displayedVariant (state c) = selectedVariant (state c)
  /\ displayedImage (state c) = ProductVariant.image (selectedVariant (state c)).
Proof.
  intros Hr Hh. pose proof (reachable_atRest _ _ _ Hr Hh) as Hn.
  unfold displayedImage, renderCard, displayedVariant; simpl.
  rewrite Hn. auto.
Qed.

(** X14: the card only ever holds variants of its product. In every
    reachable card the selected variant and the previewed one, when there
    is one, are variants of the product's list, as fetched or with the fake
    sale, and the [variants] array has the ids of the product's list in
    its order. *)
Theorem state_holds_product_variants
    (random : nat -> Q) (product : Product.t) (c : Card) :
  reachable random product c ->
  (exists i b,
     nth_error (productVariants product) i = Some b
     /\ (selectedVariant (state c) = b
         \/ selectedVariant (state c) = withCompareAtPrice (Some fakeSale) b))
  /\ (forall h,
        hoverVariant (state c) = Some h ->
        exists i b,
          nth_error (productVariants product) i = Some b
          /\ (h = b \/ h = withCompareAtPrice (Some fakeSale) b))
  /\ map ProductVariant.id (variants c)
     = map ProductVariant.id (productVariants product).
Proof.
  intros Hr. destruct (reachable_Inv _ _ _ Hr) as [HF Hs Hh _].
  split; [|split].
  - destruct Hs as (i & b & Hb & Hv). eauto.
  - intros h E. destruct (Hh h E) as (i & b & Hb & Hv). eauto.
  - now apply fakeSale_ids.
Qed.

(** X15: only the interval of the latest render ticks. When a tick fires
    on a reachable card, the card is hovered, the product has more than one
    variant, and the interval is the one the latest render armed: an
    interval of an earlier render, or any interval once the card is left or
    a swatch is chosen, does not fire. *)
Theorem only_armed_interval_ticks
    (random : nat -> Q) (product : Product.t) (c c' : Card) (interval : nat) :
  reachable random product c ->
  fire random product (Tick interval) c = Some c' ->
  armed c = Some interval
  /\ cleanup c = Some interval
  /\ isHovering (state c) = true
  /\ 1 < List.length (productVariants product).
Proof.
  intros Hr Hf. pose proof (reachable_Inv _ _ _ Hr) as HI.
  simpl in Hf.
  destruct (lookupInterval interval (active (timers c))) as [cb|] eqn:Hl;
    [|discriminate].
  destruct (armed_closure _ _ _ (inv_timer _ _ HI) Hl) as (Hh & HN & _).
  rewrite <- (Inv_length _ _ HI).
  destruct (timerInv_cases c (inv_timer _ _ HI))
    as [(_ & _ & i & Hi & Hc & _)|(_ & Hi & _)];
    rewrite Hi in Hl; simpl in Hl; [|discriminate].
  destruct (i =? interval) eqn:E; [|discriminate].
  apply Nat.eqb_eq in E. subst i.
  unfold armed. rewrite Hi. auto.
Qed.

(** X16: hovering and leaving is a round trip. From a reachable card that
    is not hovered, entering the image, letting any number of ticks fire
    and leaving gives back the state the card had, so the card looks as it
    did before the pointer came. *)
Theorem hover_round_trip
    (random : nat -> Q) (product : Product.t) (k : nat) (c c1 ck c' : Card) :
  reachable random product c ->
  isHovering (state c) = false ->
  fire random product MouseEnter c = Some c1 ->
  ticks random product k c1 = Some ck ->
  fire random product MouseLeave ck = Some c' ->
  state c' = state c /\ renderCard (state c') = renderCard (state c)
  /\ active (timers c') = [].
Proof.
  intros Hr Hh He Hk Hl.
  pose proof (reachable_atRest _ _ _ Hr Hh) as Hn.
  assert (Hr1 : reachable random product c1) by (eapply reachable_fire; eauto).
  assert (Hrk : reachable random product ck).
  { clear Hl. revert ck Hk. induction k as [|k IH]; simpl; intros ck Hk.
    - now injection Hk as <-.
    - destruct (ticks random product k c1) as [d|] eqn:E; [|discriminate].
      specialize (IH d eq_refl). unfold tick in Hk.
      destruct (armed d); [|discriminate]. eapply reachable_fire; eauto. }
  assert (Hs1 : selectedVariant (state c1) = selectedVariant (state c)).
  { simpl in He. rewrite Hh in He. injection He as <-.
    rewrite state_rerender. reflexivity. }
  assert (Hsk : selectedVariant (state ck) = selectedVariant (state c)).
  { rewrite <- Hs1.
    apply (ticks_selected random product k c1 ck Hk). }
  assert (Hr' : reachable random product c') by (eapply reachable_fire; eauto).
  assert (Hst : state c' = state c).
  { simpl in Hl.
    destruct (negb (isHovering (state ck)) && negb (isSome (hoverVariant (state ck))))
      eqn:E; injection Hl as <-.
    - apply andb_true_iff in E as [E1 E2].
      destruct (state ck) as [s [h|] [|]], (state c) as [s0 h0 b0];
        simpl in *; try discriminate. congruence.
    - rewrite state_rerender. unfold handleMouseLeave. rewrite Hsk.
      destruct (state c) as [s0 h0 b0]; simpl in *. congruence. }
  split; [exact Hst|]. split; [now rewrite Hst|].
  pose proof (inv_timer _ _ (reachable_Inv _ _ _ Hr')) as Ht.
  destruct (timerInv_cases c' Ht) as [(Hh' & _)|(_ & Ha & _)]; [|exact Ha].
  rewrite Hst in Hh'. congruence.
Qed.

(** ** More on the hover cycle *)

Lemma succ_mod_neq j n : 2 <= n -> j < n -> (j + 1) mod n <> j.
Proof.
  intros Hn Hj. destruct (Nat.eq_dec (j + 1) n) as [E|E].
  - rewrite E, Nat.Div0.mod_same. lia.
  - rewrite Nat.mod_small by lia. lia.
Qed.

Lemma variantAt_unique_id product i j v w :
  NoDup (map ProductVariant.id (productVariants product)) ->
  variantAt product i v -> variantAt product j w ->
  ProductVariant.id v = ProductVariant.id w -> i = j.
Proof.
  intros Hnd (b & Hb & Hbv) (b' & Hb' & Hbw) E.
  apply fakeSaleOf_id in Hbv, Hbw.
  assert (Hi : i < List.length (map ProductVariant.id (productVariants product))).
  { rewrite length_map. apply nth_error_Some. intros H0.
    discriminate (eq_trans (eq_sym H0) Hb). }
  apply (proj1 (NoDup_nth_error _) Hnd i j Hi).
  rewrite (map_nth_error ProductVariant.id _ _ Hb), (map_nth_error ProductVariant.id _ _ Hb').
  congruence.
Qed.

Lemma variantAt_same product i v w :
  variantAt product i v -> variantAt product i w ->
  ProductVariant.id v = ProductVariant.id w
  /\ ProductVariant.image v = ProductVariant.image w.
Proof.
  intros (b & Hb & Hbv) (b' & Hb' & Hbw).
  assert (b' = b) by congruence. subst b'.
  apply fakeSaleOf_sameOtherFields in Hbv, Hbw.
  destruct Hbv as (A1 & _ & _ & _ & A5 & _), Hbw as (B1 & _ & _ & _ & B5 & _).
  split; congruence.
Qed.

Section CycleExtras.

Variable random : nat -> Q.
Variable product : Product.t.
Variable c : Card.

Hypothesis unique_ids : NoDup (map ProductVariant.id (productVariants product)).
Hypothesis two_variants : 2 <= List.length (productVariants product).
Hypothesis reached : reachable random product c.

Lemma displayed_variantAt :
  exists j,
    j < List.length (productVariants product)
    /\ variantAt product j (displayedVariant (state c)).
Proof.
  pose proof (reachable_Inv _ _ _ reached) as HI.
  assert (H : fromProduct product (displayedVariant (state c))).
  { unfold displayedVariant. destruct (hoverVariant (state c)) as [h|] eqn:E.
    - now apply (inv_hover _ _ HI).
    - apply (inv_selected _ _ HI). }
  destruct H as [j Hj]. exists j. split; [|exact Hj].
  destruct Hj as (b & Hb & _). apply nth_error_Some. congruence.
Qed.

Lemma tick_changes_id :
  isHovering (state c) = true ->
  exists c',
    tick random product c = Some c'
    /\ ProductVariant.id (displayedVariant (state c'))
       <> ProductVariant.id (displayedVariant (state c)).
Proof.
  intros Hh. destruct displayed_variantAt as (j & Hj & Hat).
  destruct (tick_advances random product unique_ids two_variants c j
              (reachable_Inv _ _ _ reached) Hh Hat)
    as (c' & h & Ht & _ & _ & _ & _ & Hat' & _).
  exists c'. split; [exact Ht|]. intros E.
  apply (succ_mod_neq j _ two_variants Hj).
  exact (variantAt_unique_id _ _ _ _ _ unique_ids Hat' Hat E).
Qed.

Lemma ticks_period :
  isHovering (state c) = true ->
  exists cN,
    ticks random product (List.length (productVariants product)) c = Some cN
    /\ ProductVariant.id (displayedVariant (state cN))
       = ProductVariant.id (displayedVariant (state c))
    /\ displayedImage (state cN) = displayedImage (state c).
Proof.
  intros Hh. destruct displayed_variantAt as (j & Hj & Hat).
  destruct (ticks_advance random product unique_ids two_variants
              (List.length (productVariants product)) c j
              (reachable_Inv _ _ _ reached) Hh Hj Hat)
    as (cN & HN & _ & _ & _ & HatN).
  replace ((j + List.length (productVariants product))
             mod List.length (productVariants product)) with j in HatN.
  - exists cN. split; [exact HN|]. apply (variantAt_same _ _ _ _ HatN Hat).
  - rewrite <- (Nat.mul_1_l (List.length (productVariants product))) at 1.
    rewrite Nat.Div0.mod_add, Nat.mod_small by lia. reflexivity.
Qed.

Lemma ticks_reach t :
  isHovering (state c) = true ->
  t < List.length (productVariants product) ->
  exists k ck,
    k < List.length (productVariants product)
    /\ ticks random product k c = Some ck
    /\ variantAt product t (displayedVariant (state ck)).
Proof.
  intros Hh Ht. destruct displayed_variantAt as (j & Hj & Hat).
  set (N := List.length (productVariants product)) in *.
  exists ((t + N - j) mod N).
  destruct (ticks_advance random product unique_ids two_variants
              ((t + N - j) mod N) c j
              (reachable_Inv _ _ _ reached) Hh Hj Hat)
    as (ck & Hk & _ & _ & _ & Hatk).
  exists ck. split; [apply Nat.mod_upper_bound; lia|]. split; [exact Hk|].
  fold N in Hatk.
  replace ((j + (t + N - j) mod N) mod N) with t in Hatk; [exact Hatk|].
  rewrite Nat.Div0.add_mod_idemp_r.
  replace (j + (t + N - j)) with (t + 1 * N) by lia.
  rewrite Nat.Div0.mod_add, Nat.mod_small by lia. reflexivity.
Qed.

End CycleExtras.

Lemma shirt_unique_ids :
  NoDup (map ProductVariant.id (productVariants shirt)).
Proof.
  simpl. repeat constructor; simpl; intuition discriminate.
Defined.

Lemma shirt_two_variants : 2 <= List.length (productVariants shirt).
Proof. simpl. lia. Defined.

(** X17: every tick changes what is shown. On a reachable hovered card of
    a product with two variants or more, with distinct ids, the tick fires
    and the variant displayed after it is another one than before. *)
Theorem tick_changes_displayed_variant
    (random : nat -> Q) (product : Product.t) (c : Card) :
  NoDup (map ProductVariant.id (productVariants product)) ->
  2 <= List.length (productVariants product) ->
  reachable random product c ->
  isHovering (state c) = true ->
  exists c',
    tick random product c = Some c'
    /\ ProductVariant.id (displayedVariant (state c'))
       <> ProductVariant.id (displayedVariant (state c)).
Proof.
  intros Hnd HN Hr Hh. now apply tick_changes_id.
Qed.

(** X18: the cycle has the period of the list. On such a card, as many
    ticks as the product has variants fire in a row and bring back the
    variant, and the image, displayed before them. *)
Theorem hover_cycle_period
    (random : nat -> Q) (product : Product.t) (c : Card) :
  NoDup (map ProductVariant.id (productVariants product)) ->
  2 <= List.length (productVariants product) ->
  reachable random product c ->
  isHovering (state c) = true ->
  exists cN,
    ticks random product (List.length (productVariants product)) c = Some cN
    /\ ProductVariant.id (displayedVariant (state cN))
       = ProductVariant.id (displayedVariant (state c))
    /\ displayedImage (state cN) = displayedImage (state c).
Proof.
  intros Hnd HN Hr Hh. now apply ticks_period.
Qed.

(** X19: the cycle shows every variant. On such a card, for every variant
    of the product there is a number of ticks, smaller than the number of
    variants, after which that variant is the one displayed, with its
    image. *)
Theorem hover_cycle_reaches_every_variant
    (random : nat -> Q) (product : Product.t) (c : Card)
    (t : nat) (target : Variant) :
  NoDup (map ProductVariant.id (productVariants product)) ->
  2 <= List.length (productVariants product) ->
  reachable random product c ->
  isHovering (state c) = true ->
  nth_error (productVariants product) t = Some target ->
  exists k ck,
    k < List.length (productVariants product)
    /\ ticks random product k c = Some ck
    /\ ProductVariant.id (displayedVariant (state ck)) = ProductVariant.id target
    /\ displayedImage (state ck) = ProductVariant.image target.
Proof.
  intros Hnd HN Hr Hh Ht.
  assert (Hlt : t < List.length (productVariants product)).
  { apply nth_error_Some. intros H0. discriminate (eq_trans (eq_sym H0) Ht). }
  destruct (ticks_reach random product c Hnd HN Hr t Hh Hlt)
    as (k & ck & Hk & Hck & Hat).
  exists k, ck. split; [exact Hk|]. split; [exact Hck|].
  apply (variantAt_same product t); [exact Hat|].
  exists target. split; [exact Ht|]. now left.
Qed.

(** X20: entering starts the cycle without showing anything new. On a
    reachable card that is not hovered, of a product with two variants or
    more, with distinct ids, the pointer-enter event leaves the image, the
    price and the badge as they are, and the first tick after it fires and
    shows another variant than the selected one, which stays selected. *)
Theorem enter_then_first_tick
    (random : nat -> Q) (product : Product.t) (c : Card) :
  NoDup (map ProductVariant.id (productVariants product)) ->
  2 <= List.length (productVariants product) ->
  reachable random product c ->
  isHovering (state c) = false ->
  exists c1 c2,
    fire random product MouseEnter c = Some c1
    /\ renderCard (state c1) = renderCard (state c)
    /\ tick random product c1 = Some c2
    /\ ProductVariant.id (displayedVariant (state c2))
       <> ProductVariant.id (selectedVariant (state c))
    /\ selectedVariant (state c2) = selectedVariant (state c).
Proof.
  intros Hnd HN Hr Hh.
  pose proof (reachable_atRest _ _ _ Hr Hh) as Hn.
  assert (He : fire random product MouseEnter c
               = Some (rerender random product (handleMouseEnter (state c)) c)).
  { simpl. rewrite Hh. reflexivity. }
  set (c1 := rerender random product (handleMouseEnter (state c)) c) in *.
  assert (Hs1 : state c1 = handleMouseEnter (state c))
    by apply state_rerender.
  assert (Hr1 : reachable random product c1)
    by (eapply reachable_fire; eauto).
  assert (Hh1 : isHovering (state c1) = true) by (rewrite Hs1; reflexivity).
  assert (Hd1 : displayedVariant (state c1) = selectedVariant (state c)).
  { rewrite Hs1. unfold displayedVariant. simpl. now rewrite Hn. }
  destruct (tick_changes_id random product c1 Hnd HN Hr1 Hh1) as (c2 & Ht & Hne).
  exists c1, c2. split; [exact He|]. split.
  { unfold renderCard. rewrite Hd1. rewrite Hs1. simpl.
    unfold displayedVariant. now rewrite Hn. }
  split; [exact Ht|]. split; [now rewrite <- Hd1|].
  destruct (tick_keeps_selection _ _ _ _ Ht) as [-> _].
  now rewrite Hs1.
Qed.

End Folding.

(** * The theorems on the fixtures *)

(** The strings of the fixtures are ASCII, so [asciiToLowerCase] is their
    [toLowerCase]. *)

Lemma shirtCard_reachable : reachable asciiToLowerCase neverSale shirt shirtCard.
Proof.
  apply reachable_mount with (calls := 0) (firstId := 0). reflexivity.
Defined.

Lemma hoveredShirtCard_reachable : reachable asciiToLowerCase neverSale shirt hoveredShirtCard.
Proof.
  apply reachable_fire with (ev := MouseEnter) (c := shirtCard).
  - apply reachable_mount with (calls := 0) (firstId := 0). reflexivity.
  - reflexivity.
Defined.

Lemma tickedShirtCard_reachable : reachable asciiToLowerCase neverSale shirt tickedShirtCard.
Proof.
  apply reachable_fire with (ev := Tick 0) (c := hoveredShirtCard);
    [exact hoveredShirtCard_reachable|reflexivity].
Defined.

Lemma select_first_matching_witness :
  (exists v, In v [red; blue] /\ hasColor asciiToLowerCase "BLUE" v)
  /\ exists before v after,
       [red; blue] = before ++ v :: after
       /\ hasColor asciiToLowerCase "BLUE" v
       /\ (forall u, In u before -> ~ hasColor asciiToLowerCase "BLUE" u)
       /\ selectedVariant (handleVariantClick asciiToLowerCase [red; blue] "BLUE" hoveringBlueOverRed) = v
       /\ hoverVariant (handleVariantClick asciiToLowerCase [red; blue] "BLUE" hoveringBlueOverRed) = None
       /\ isHovering (handleVariantClick asciiToLowerCase [red; blue] "BLUE" hoveringBlueOverRed) = false.
Proof.
  assert (H : exists v, In v [red; blue] /\ hasColor asciiToLowerCase "BLUE" v).
  { exists blue. split; [simpl; auto|].
    apply matchesColor_hasColor. reflexivity. }
  split; [exact H|].
  exact (select_first_matching asciiToLowerCase [red; blue] "BLUE" hoveringBlueOverRed H).
Defined.

Lemma unmatched_click_is_noop_witness :
  (forall v, In v (variants shirtCard) -> ~ hasColor asciiToLowerCase "green" v)
  /\ handleVariantClick asciiToLowerCase (variants shirtCard) "green" (state shirtCard)
     = state shirtCard
  /\ fire asciiToLowerCase neverSale shirt (Click "green") shirtCard = Some shirtCard
  /\ handleVariantClick asciiToLowerCase (variants shirtCard) "green"
       (handleVariantClick asciiToLowerCase (variants shirtCard) "green" (state shirtCard))
     = state shirtCard.
Proof.
  assert (H : forall v, In v (variants shirtCard) -> ~ hasColor asciiToLowerCase "green" v).
  { intros v Hin. apply matchesColor_false.
    simpl in Hin. destruct Hin as [<-|[<-|[]]]; reflexivity. }
  split; [exact H|].
  exact (unmatched_click_is_noop asciiToLowerCase neverSale shirt shirtCard "green" H).
Defined.

Lemma one_timer_iff_hovering_witness :
  reachable asciiToLowerCase neverSale shirt hoveredShirtCard
  /\ List.length (active (timers hoveredShirtCard)) <= 1
  /\ (active (timers hoveredShirtCard) <> [] <->
      isHovering (state hoveredShirtCard) = true
      /\ 1 < List.length (productVariants shirt))
  /\ (List.length (productVariants shirt) = 1 ->
      active (timers hoveredShirtCard) = []
      /\ forall st t, hoverEffect st (variants hoveredShirtCard) t = (None, t))
  /\ (forall ev c',
        fire asciiToLowerCase neverSale shirt ev hoveredShirtCard = Some c' ->
        isHovering (state c') = false -> active (timers c') = [])
  /\ (forall st' interval,
        armed hoveredShirtCard = Some interval ->
        lookupInterval interval
          (active (timers (rerender neverSale shirt st' hoveredShirtCard))) = None)
  /\ active (unmount hoveredShirtCard) = [].
Proof.
  split; [exact hoveredShirtCard_reachable|].
  exact (one_timer_iff_hovering asciiToLowerCase neverSale shirt hoveredShirtCard
           hoveredShirtCard_reachable).
Defined.

Lemma hover_cycle_witness :
  NoDup (map ProductVariant.id (productVariants shirt))
  /\ 2 <= List.length (productVariants shirt)
  /\ reachable asciiToLowerCase neverSale shirt hoveredShirtCard
  /\ isHovering (state hoveredShirtCard) = true
  /\ let N := List.length (productVariants shirt) in
     let start :=
       Z.to_nat (indexOf (productVariants shirt)
                         (displayedVariant (state hoveredShirtCard))) in
     exists ck,
       ticks asciiToLowerCase neverSale shirt 3 hoveredShirtCard = Some ck
       /\ isHovering (state ck) = true
       /\ variantAt shirt ((start + 3) mod N) (displayedVariant (state ck))
       /\ (exists w, nth_error (variants ck) ((start + 3) mod N) = Some w
                     /\ sameOtherFields w (displayedVariant (state ck)))
       /\ indexOf (variants ck) (displayedVariant (state ck))
          = Z.of_nat ((start + 3) mod N)
       /\ exists c' next,
            tick asciiToLowerCase neverSale shirt ck = Some c'
            /\ nth_error (variants ck) (((start + 3) mod N + 1) mod N) = Some next
            /\ hoverVariant (state c') = Some next.
Proof.
  assert (H1 : NoDup (map ProductVariant.id (productVariants shirt))).
  { simpl. repeat constructor; simpl; intuition discriminate. }
  assert (H2 : 2 <= List.length (productVariants shirt)) by (simpl; lia).
  assert (H4 : isHovering (state hoveredShirtCard) = true) by reflexivity.
  split; [exact H1|]. split; [exact H2|].
  split; [exact hoveredShirtCard_reachable|]. split; [exact H4|].
  exact (hover_cycle asciiToLowerCase neverSale shirt hoveredShirtCard 3
           H1 H2 hoveredShirtCard_reachable H4).
Defined.

(** The shirt starts on Red at price 10 without a badge; a click on the
    Blue swatch shows Blue, 8 struck through beside 12, with the badge. *)
Example scenario_red_then_blue :
  mount neverSale shirt 0 0 = Some shirtCard
  /\ displayedImage (state shirtCard) = Some (picture "red.png")
  /\ Price (priceProps (renderCard (state shirtCard))) = MoneyOnly (cad "10")
  /\ saleBadgeShown (state shirtCard) = false
  /\ exists c,
       fire asciiToLowerCase neverSale shirt (Click "Blue") shirtCard = Some c
       /\ displayedImage (state c) = Some (picture "blue.png")
       /\ Price (priceProps (renderCard (state c)))
          = StruckThrough (cad "8") (cad "12")
       /\ saleBadgeShown (state c) = true.
Proof.
  repeat split. eexists. repeat split.
Qed.

Lemma clicked_swatch_is_marked_witness :
  (exists v, In v [red; blue] /\ hasColor asciiToLowerCase "BLUE" v)
  /\ In (Swatch {| SwatchProps.swatch := None; SwatchProps.name := "Blue";
                   SwatchProps.isSelected := true;
                   SwatchProps.onClick := "Blue" |})
        (shownSwatches
           (renderSwatches asciiToLowerCase
              [{| ProductOption.name := "COLOR";
                  ProductOption.optionValues :=
                    [{| OptionValue.name := "Blue";
                        OptionValue.swatch := None |}] |}]
              (handleVariantClick asciiToLowerCase [red; blue] "BLUE" hoveringBlueOverRed)))
  /\ asciiToLowerCase "Blue" = asciiToLowerCase "BLUE"
  /\ className (Swatch {| SwatchProps.swatch := None; SwatchProps.name := "Blue";
                          SwatchProps.isSelected := true;
                          SwatchProps.onClick := "Blue" |})
     = String.append "w-6 h-6 rounded-full " selectedClass.
Proof.
  assert (H1 : exists v, In v [red; blue] /\ hasColor asciiToLowerCase "BLUE" v).
  { exists blue. split; [simpl; auto|].
    apply matchesColor_hasColor. reflexivity. }
  assert (H2 : In (Swatch {| SwatchProps.swatch := None; SwatchProps.name := "Blue";
                             SwatchProps.isSelected := true;
                             SwatchProps.onClick := "Blue" |})
                  (shownSwatches
                     (renderSwatches asciiToLowerCase
                        [{| ProductOption.name := "COLOR";
                            ProductOption.optionValues :=
                              [{| OptionValue.name := "Blue";
                                  OptionValue.swatch := None |}] |}]
                        (handleVariantClick asciiToLowerCase [red; blue] "BLUE" hoveringBlueOverRed)))).
  { simpl. left. reflexivity. }
  assert (H3 : asciiToLowerCase "Blue" = asciiToLowerCase "BLUE") by reflexivity.
  split; [exact H1|]. split; [exact H2|]. split; [exact H3|].
  exact (clicked_swatch_is_marked asciiToLowerCase _ [red; blue] "BLUE" hoveringBlueOverRed _
           H1 H2 H3).
Defined.

Lemma ticks_keep_selection_witness :
  ticks asciiToLowerCase neverSale shirt 1 hoveredShirtCard = Some tickedShirtCard
  /\ selectedVariant (state tickedShirtCard)
     = selectedVariant (state hoveredShirtCard)
  /\ displayedPrice (state tickedShirtCard)
     = displayedPrice (state hoveredShirtCard)
  /\ saleBadgeShown (state tickedShirtCard)
     = saleBadgeShown (state hoveredShirtCard)
  /\ renderSwatches asciiToLowerCase shirtOptions (state tickedShirtCard)
     = renderSwatches asciiToLowerCase shirtOptions (state hoveredShirtCard).
Proof.
  assert (H : ticks asciiToLowerCase neverSale shirt 1 hoveredShirtCard = Some tickedShirtCard)
    by reflexivity.
  split; [exact H|].
  exact (ticks_keep_selection asciiToLowerCase neverSale shirt shirtOptions 1
           hoveredShirtCard tickedShirtCard H).
Defined.

Lemma only_click_changes_selection_witness :
  fire asciiToLowerCase neverSale shirt (Click "blue") shirtCard = Some blueShirtCard
  /\ selectedVariant (state blueShirtCard) <> selectedVariant (state shirtCard)
  /\ exists colorName,
       Click "blue" = Click colorName
       /\ find (matchesColor asciiToLowerCase colorName) (variants shirtCard)
          = Some (selectedVariant (state blueShirtCard)).
Proof.
  assert (H1 : fire asciiToLowerCase neverSale shirt (Click "blue") shirtCard = Some blueShirtCard)
    by reflexivity.
  assert (H2 : selectedVariant (state blueShirtCard)
               <> selectedVariant (state shirtCard))
    by (simpl; intro H; discriminate H).
  split; [exact H1|]. split; [exact H2|].
  exact (only_click_changes_selection asciiToLowerCase neverSale shirt (Click "blue")
           shirtCard blueShirtCard H1 H2).
Defined.

Lemma preview_only_while_hovering_witness :
  reachable asciiToLowerCase neverSale shirt blueShirtCard
  /\ isHovering (state blueShirtCard) = false
  /\ hoverVariant (state blueShirtCard) = None
  /\ displayedVariant (state blueShirtCard) = selectedVariant (state blueShirtCard)
  /\ displayedImage (state blueShirtCard)
     = ProductVariant.image (selectedVariant (state blueShirtCard)).
Proof.
  assert (H1 : reachable asciiToLowerCase neverSale shirt blueShirtCard).
  { apply reachable_fire with (ev := Click "blue") (c := shirtCard);
      [exact shirtCard_reachable|reflexivity]. }
  assert (H2 : isHovering (state blueShirtCard) = false) by reflexivity.
  split; [exact H1|]. split; [exact H2|].
  exact (preview_only_while_hovering asciiToLowerCase neverSale shirt blueShirtCard H1 H2).
Defined.

Lemma state_holds_product_variants_witness :
  reachable asciiToLowerCase neverSale shirt tickedShirtCard
  /\ (exists i b,
        nth_error (productVariants shirt) i = Some b
        /\ (selectedVariant (state tickedShirtCard) = b
            \/ selectedVariant (state tickedShirtCard)
               = withCompareAtPrice (Some fakeSale) b))
  /\ (forall h,
        hoverVariant (state tickedShirtCard) = Some h ->
        exists i b,
          nth_error (productVariants shirt) i = Some b
          /\ (h = b \/ h = withCompareAtPrice (Some fakeSale) b))
  /\ map ProductVariant.id (variants tickedShirtCard)
     = map ProductVariant.id (productVariants shirt).
Proof.
  split; [exact tickedShirtCard_reachable|].
  exact (state_holds_product_variants asciiToLowerCase neverSale shirt tickedShirtCard
           tickedShirtCard_reachable).
Defined.

Lemma only_armed_interval_ticks_witness :
  reachable asciiToLowerCase neverSale shirt hoveredShirtCard
  /\ fire asciiToLowerCase neverSale shirt (Tick 0) hoveredShirtCard = Some tickedShirtCard
  /\ armed hoveredShirtCard = Some 0
  /\ cleanup hoveredShirtCard = Some 0
  /\ isHovering (state hoveredShirtCard) = true
  /\ 1 < List.length (productVariants shirt).
Proof.
  assert (H : fire asciiToLowerCase neverSale shirt (Tick 0) hoveredShirtCard = Some tickedShirtCard)
    by reflexivity.
  split; [exact hoveredShirtCard_reachable|]. split; [exact H|].
  exact (only_armed_interval_ticks asciiToLowerCase neverSale shirt hoveredShirtCard
           tickedShirtCard 0 hoveredShirtCard_reachable H).
Defined.

Lemma hover_round_trip_witness :
  reachable asciiToLowerCase neverSale shirt shirtCard
  /\ isHovering (state shirtCard) = false
  /\ fire asciiToLowerCase neverSale shirt MouseEnter shirtCard = Some hoveredShirtCard
  /\ ticks asciiToLowerCase neverSale shirt 1 hoveredShirtCard = Some tickedShirtCard
  /\ fire asciiToLowerCase neverSale shirt MouseLeave tickedShirtCard
     = Some {| state := state shirtCard; variants := [red; blue];
               timers := {| active := []; fresh := 2 |};
               cleanup := None; randomCalls := 8 |}
  /\ state {| state := state shirtCard; variants := [red; blue];
              timers := {| active := []; fresh := 2 |};
              cleanup := None; randomCalls := 8 |} = state shirtCard
  /\ renderCard (state {| state := state shirtCard; variants := [red; blue];
                          timers := {| active := []; fresh := 2 |};
                          cleanup := None; randomCalls := 8 |})
     = renderCard (state shirtCard)
  /\ active (timers {| state := state shirtCard; variants := [red; blue];
                       timers := {| active := []; fresh := 2 |};
                       cleanup := None; randomCalls := 8 |}) = [].
Proof.
  assert (H2 : isHovering (state shirtCard) = false) by reflexivity.
  assert (H3 : fire asciiToLowerCase neverSale shirt MouseEnter shirtCard = Some hoveredShirtCard)
    by reflexivity.
  assert (H4 : ticks asciiToLowerCase neverSale shirt 1 hoveredShirtCard = Some tickedShirtCard)
    by reflexivity.
  assert (H5 : fire asciiToLowerCase neverSale shirt MouseLeave tickedShirtCard
               = Some {| state := state shirtCard; variants := [red; blue];
                         timers := {| active := []; fresh := 2 |};
                         cleanup := None; randomCalls := 8 |})
    by reflexivity.
  split; [exact shirtCard_reachable|]. split; [exact H2|].
  split; [exact H3|]. split; [exact H4|]. split; [exact H5|].
  exact (hover_round_trip asciiToLowerCase neverSale shirt 1 shirtCard hoveredShirtCard
           tickedShirtCard _ shirtCard_reachable H2 H3 H4 H5).
Defined.

Lemma tick_changes_displayed_variant_witness :
  NoDup (map ProductVariant.id (productVariants shirt))
  /\ 2 <= List.length (productVariants shirt)
  /\ reachable asciiToLowerCase neverSale shirt tickedShirtCard
  /\ isHovering (state tickedShirtCard) = true
  /\ exists c',
       tick asciiToLowerCase neverSale shirt tickedShirtCard = Some c'
       /\ ProductVariant.id (displayedVariant (state c'))
          <> ProductVariant.id (displayedVariant (state tickedShirtCard)).
Proof.
  assert (H4 : isHovering (state tickedShirtCard) = true) by reflexivity.
  split; [exact shirt_unique_ids|]. split; [exact shirt_two_variants|].
  split; [exact tickedShirtCard_reachable|]. split; [exact H4|].
  exact (tick_changes_displayed_variant asciiToLowerCase neverSale shirt tickedShirtCard
           shirt_unique_ids shirt_two_variants tickedShirtCard_reachable H4).
Defined.

Lemma hover_cycle_period_witness :
  NoDup (map ProductVariant.id (productVariants shirt))
  /\ 2 <= List.length (productVariants shirt)
  /\ reachable asciiToLowerCase neverSale shirt tickedShirtCard
  /\ isHovering (state tickedShirtCard) = true
  /\ exists cN,
       ticks asciiToLowerCase neverSale shirt (List.length (productVariants shirt)) tickedShirtCard
       = Some cN
       /\ ProductVariant.id (displayedVariant (state cN))
          = ProductVariant.id (displayedVariant (state tickedShirtCard))
       /\ displayedImage (state cN) = displayedImage (state tickedShirtCard).
Proof.
  assert (H4 : isHovering (state tickedShirtCard) = true) by reflexivity.
  split; [exact shirt_unique_ids|]. split; [exact shirt_two_variants|].
  split; [exact tickedShirtCard_reachable|]. split; [exact H4|].
  exact (hover_cycle_period asciiToLowerCase neverSale shirt tickedShirtCard
           shirt_unique_ids shirt_two_variants tickedShirtCard_reachable H4).
Defined.

Lemma hover_cycle_reaches_every_variant_witness :
  NoDup (map ProductVariant.id (productVariants shirt))
  /\ 2 <= List.length (productVariants shirt)
  /\ reachable asciiToLowerCase neverSale shirt tickedShirtCard
  /\ isHovering (state tickedShirtCard) = true
  /\ nth_error (productVariants shirt) 0 = Some red
  /\ exists k ck,
       k < List.length (productVariants shirt)
       /\ ticks asciiToLowerCase neverSale shirt k tickedShirtCard = Some ck
       /\ ProductVariant.id (displayedVariant (state ck)) = ProductVariant.id red
       /\ displayedImage (state ck) = ProductVariant.image red.
Proof.
  assert (H4 : isHovering (state tickedShirtCard) = true) by reflexivity.
  assert (H5 : nth_error (productVariants shirt) 0 = Some red) by reflexivity.
  split; [exact shirt_unique_ids|]. split; [exact shirt_two_variants|].
  split; [exact tickedShirtCard_reachable|]. split; [exact H4|].
  split; [exact H5|].
  exact (hover_cycle_reaches_every_variant asciiToLowerCase neverSale shirt tickedShirtCard 0 red
           shirt_unique_ids shirt_two_variants tickedShirtCard_reachable H4 H5).
Defined.

Lemma enter_then_first_tick_witness :
  NoDup (map ProductVariant.id (productVariants shirt))
  /\ 2 <= List.length (productVariants shirt)
  /\ reachable asciiToLowerCase neverSale shirt shirtCard
  /\ isHovering (state shirtCard) = false
  /\ exists c1 c2,
       fire asciiToLowerCase neverSale shirt MouseEnter shirtCard = Some c1
       /\ renderCard (state c1) = renderCard (state shirtCard)
       /\ tick asciiToLowerCase neverSale shirt c1 = Some c2
       /\ ProductVariant.id (displayedVariant (state c2))
          <> ProductVariant.id (selectedVariant (state shirtCard))
       /\ selectedVariant (state c2) = selectedVariant (state shirtCard).
Proof.
  assert (H4 : isHovering (state shirtCard) = false) by reflexivity.
  split; [exact shirt_unique_ids|]. split; [exact shirt_two_variants|].
  split; [exact shirtCard_reachable|]. split; [exact H4|].
  exact (enter_then_first_tick asciiToLowerCase neverSale shirt shirtCard
           shirt_unique_ids shirt_two_variants shirtCard_reachable H4).
Defined.

(** With a case mapping that knows the accented letters, a click on "É"
    selects the variant whose colour is "é" before the one whose colour is
    "É", and finds it where no variant is written with the capital. *)
Example accented_click :
  selectedVariant
    (handleVariantClick latin1ToLowerCase
       [coloured "1" "é"; coloured "2" "É"] "É" hoveringBlueOverRed)
  = coloured "1" "é"
  /\ selectedVariant
       (handleVariantClick latin1ToLowerCase
          [coloured "1" "Rouge"; coloured "2" "é"] "É" hoveringBlueOverRed)
     = coloured "2" "é".
Proof. split; reflexivity. Qed.

(** C2 as stated fails. On the shirt, with the sale drawn in the first two
    renders only, the blue variant displayed after one tick carries the
    300.0 CAD of the render it was taken from, while entry 1 of the
    product's list and of the current [variants] array is the blue variant
    at 8 CAD. And where two variants share an id the cycle stalls: on the
    twins, three ticks from the first variant display the third variant,
    not the first one again. *)
Lemma hover_cycle_fails_as_worded :
  (exists c0 c1,
     reachable asciiToLowerCase saleOnFirstFour shirt c0
     /\ isHovering (state c0) = true
     /\ indexOf (productVariants shirt) (displayedVariant (state c0)) = 0%Z
     /\ ticks asciiToLowerCase saleOnFirstFour shirt 1 c0 = Some c1
     /\ nth_error (productVariants shirt) ((0 + 1) mod 2) = Some blue
     /\ nth_error (variants c1) ((0 + 1) mod 2) = Some blue
     /\ displayedVariant (state c1) = withCompareAtPrice (Some fakeSale) blue
     /\ displayedVariant (state c1) <> blue)
  /\ (exists c3,
        reachable asciiToLowerCase neverSale twins hoveredTwinsCard
        /\ isHovering (state hoveredTwinsCard) = true
        /\ indexOf (productVariants twins)
                   (displayedVariant (state hoveredTwinsCard)) = 0%Z
        /\ ticks asciiToLowerCase neverSale twins 3 hoveredTwinsCard = Some c3
        /\ nth_error (productVariants twins) ((0 + 3) mod 3) = Some red
        /\ displayedVariant (state c3) = navy
        /\ navy <> red).
Proof.
  split.
  - eexists _, _. split.
    { eapply reachable_fire with (ev := MouseEnter).
      - eapply reachable_mount with (calls := 0) (firstId := 0). reflexivity.
      - reflexivity. }
    repeat split. simpl. intro H. discriminate H.
  - eexists. split.
    { eapply reachable_fire with (ev := MouseEnter).
      - eapply reachable_mount with (calls := 0) (firstId := 0). reflexivity.
      - reflexivity. }
    repeat split. intro H. discriminate H.
Qed.
